(** * Orbit: process table refresh and function selection

    A shallow embedding of two translation units of the Orbit profiler:

    - [OrbitCore/OrbitFunction.cpp]: [Function::Select], [UnSelect],
      [IsSelected], [GetCallingConventionString], [SetOrbitTypeFromName]
      and the constructor;
    - [ProcessList.cpp]: [ProcessList::Refresh].

    Integers of the source are [Z] with the conversion between [uint32_t]
    and [int32_t] written out; [std::string] is [string] (a sequence of
    bytes); [std::unordered_map] and [std::map] are [gmap]; a
    [std::vector] is a [list]; a pointer into a vector is the index of the
    element it points to. *)

From Stdlib Require Import ZArith String Ascii.
From stdpp Require Import base gmap list strings.

Local Open Scope Z_scope.

(** ** Strings: the abseil predicates used by the sources *)

Module Absl.

(** [absl::StartsWith(text, prefix)]. *)
Fixpoint StartsWith (text prefix : string) {struct prefix} : bool :=
  match prefix, text with
  | EmptyString, _ => true
  | String _ _, EmptyString => false
  | String p prefix', String t text' =>
      if Ascii.eqb t p then StartsWith text' prefix' else false
  end.

(** [absl::StrContains(haystack, needle)]:
    [haystack.find(needle) != npos]. *)
Fixpoint StrContains (haystack needle : string) : bool :=
  StartsWith haystack needle ||
  match haystack with
  | EmptyString => false
  | String _ haystack' => StrContains haystack' needle
  end.

(** [absl::ascii_isspace]: space, [\t], [\n], [\v], [\f], [\r]. *)
Definition ascii_isspace (c : ascii) : bool :=
  let n := nat_of_ascii c in
  (n =? 32)%nat || ((9 <=? n)%nat && (n <=? 13)%nat).

(** [absl::ascii_isdigit] and the value of a decimal digit. *)
Definition ascii_isdigit (c : ascii) : bool :=
  let n := nat_of_ascii c in (48 <=? n)%nat && (n <=? 57)%nat.

Definition digit_value (c : ascii) : Z := Z.of_nat (nat_of_ascii c) - 48.

(** Leading white space removed. *)
Fixpoint StripLeadingAsciiWhitespace (s : string) : string :=
  match s with
  | EmptyString => EmptyString
  | String c s' =>
      if ascii_isspace c then StripLeadingAsciiWhitespace s' else s
  end.

(** [absl::StripTrailingAsciiWhitespace(&s)]: the longest prefix of [s] that
    does not end in white space. *)
Fixpoint StripTrailingAsciiWhitespace (s : string) : string :=
  match s with
  | EmptyString => EmptyString
  | String c s' =>
      match StripTrailingAsciiWhitespace s' with
      | EmptyString => if ascii_isspace c then EmptyString
                       else String c EmptyString
      | r => String c r
      end
  end.

Definition uint32_max : Z := 4294967295.

(** A string of decimal digits. *)
Fixpoint all_digits (s : string) : bool :=
  match s with
  | EmptyString => true
  | String c s' => ascii_isdigit c && all_digits s'
  end.

(** [safe_parse_positive_int] in base 10 for [uint32_t]: every character is
    a digit and the value never exceeds [uint32_max]. *)
Fixpoint safe_parse_positive_int (acc : Z) (s : string) : option Z :=
  match s with
  | EmptyString => Some acc
  | String c s' =>
      if ascii_isdigit c then
        let acc' := acc * 10 + digit_value c in
        if acc' <=? uint32_max then safe_parse_positive_int acc' s' else None
      else None
  end.

(** [absl::SimpleAtoi(str, &out)] at [uint32_t]: white space is stripped on
    both sides, one sign character is consumed, a negative sign is refused,
    and what is left must be a non-empty run of decimal digits whose value
    fits 32 bits. [Some v] is a return of [true] with [out = v]. *)
Definition SimpleAtoi (str : string) : option Z :=
  match StripTrailingAsciiWhitespace (StripLeadingAsciiWhitespace str) with
  | EmptyString => None
  | String c rest =>
      if Ascii.eqb c "-" then None
      else
        let digits := if Ascii.eqb c "+" then rest else String c rest in
        match digits with
        | EmptyString => None
        | _ => safe_parse_positive_int 0 digits
        end
  end.

End Absl.

Export Absl.

(** ** OrbitCore/OrbitFunction.cpp *)

Module OrbitFunction.

(** The enumerators of [Function::OrbitType] that the source names. *)
Inductive OrbitType : Set :=
  | ORBIT_TIMER_START
  | ORBIT_TIMER_STOP
  | ORBIT_TIMER_START_ASYNC
  | ORBIT_TIMER_STOP_ASYNC
  | ORBIT_TRACK_INT
  | ORBIT_TRACK_INT_64
  | ORBIT_TRACK_UINT
  | ORBIT_TRACK_UINT_64
  | ORBIT_TRACK_FLOAT
  | ORBIT_TRACK_DOUBLE
  | ORBIT_TRACK_FLOAT_AS_INT
  | ORBIT_TRACK_DOUBLE_AS_INT_64.

(** The static table of [GetCallingConventionString]. *)
Definition kCallingConventions : list string :=
  [ "NEAR_C"; "FAR_C"; "NEAR_PASCAL"; "FAR_PASCAL"; "NEAR_FAST"; "FAR_FAST";
    "SKIPPED"; "NEAR_STD"; "FAR_STD"; "NEAR_SYS"; "FAR_SYS"; "THISCALL";
    "MIPSCALL"; "GENERIC"; "ALPHACALL"; "PPCCALL"; "SHCALL"; "ARMCALL";
    "AM33CALL"; "TRICALL"; "SH5CALL"; "M32RCALL"; "CLRCALL"; "INLINE";
    "NEAR_VECTOR"; "RESERVED" ]%string.

(** The entries of the static map of [GetFunctionNameToOrbitTypeMap], in the
    order of the initializer list. *)
Definition function_name_to_type_map : list (string * OrbitType) :=
  [ ("Start(", ORBIT_TIMER_START);
    ("Stop(", ORBIT_TIMER_STOP);
    ("StartAsync(", ORBIT_TIMER_START_ASYNC);
    ("StopAsync(", ORBIT_TIMER_STOP_ASYNC);
    ("TrackInt(", ORBIT_TRACK_INT);
    ("TrackInt64(", ORBIT_TRACK_INT_64);
    ("TrackUint(", ORBIT_TRACK_UINT);
    ("TrackUint64(", ORBIT_TRACK_UINT_64);
    ("TrackFloat(", ORBIT_TRACK_FLOAT);
    ("TrackDouble(", ORBIT_TRACK_DOUBLE);
    ("TrackFloatAsInt(", ORBIT_TRACK_FLOAT_AS_INT);
    ("TrackDoubleAsInt64(", ORBIT_TRACK_DOUBLE_AS_INT_64) ]%string.

(** [static_cast<size_t>] of an [int]. *)
Definition static_cast_size_t (z : Z) : Z := z mod 2 ^ 64.

(** The values of an [int]. *)
Definition is_int (z : Z) : Prop := - 2 ^ 31 <= z < 2 ^ 31.

Section Function.

(** What [OrbitFunction.h] and the headers it includes declare is not part
    of this translation unit: the statistics object, the members the
    header adds to the ones named here, and the inline accessors. *)
Variable FunctionStats : Type.
Variable make_FunctionStats : FunctionStats.
Variable FunctionStats_Reset : FunctionStats -> FunctionStats.
Variable HeaderMembers : Type.

(** The data members this file names; [stats_] is a shared pointer that
    may be null. *)
Record Function : Type := mkFunction {
  name_ : string;
  pretty_name_ : string;
  loaded_module_path_ : string;
  module_base_address_ : Z;
  address_ : Z;
  load_bias_ : Z;
  size_ : Z;
  file_ : string;
  line_ : Z;
  calling_convention_ : Z;
  stats_ : option FunctionStats;
  header_members_ : HeaderMembers
}.

Variable PrettyName : Function -> string.
Variable GetVirtualAddress : Function -> Z.
Variable SetOrbitType : OrbitType -> Function -> Function.

(** [Capture::GSelectedFunctionsMap], a static data member: one map for
    the whole program, from a virtual address to the function selected
    there. The stored [Function*] is represented by the function it
    points to. *)
Record Capture : Type := mkCapture {
  GSelectedFunctionsMap : gmap Z Function
}.

(** [void Function::Select()]; the [LOG] line writes to the log only. *)
Definition Select (this : Function) (g : Capture) : Capture :=
  {| GSelectedFunctionsMap :=
       <[GetVirtualAddress this := this]> (GSelectedFunctionsMap g) |}.

(** [void Function::UnSelect()]. *)
Definition UnSelect (this : Function) (g : Capture) : Capture :=
  {| GSelectedFunctionsMap :=
       delete (GetVirtualAddress this) (GSelectedFunctionsMap g) |}.

(** [bool Function::IsSelected() const]: [count(address) > 0]. *)
Definition IsSelected (this : Function) (g : Capture) : bool :=
  match GSelectedFunctionsMap g !! GetVirtualAddress this with
  | Some _ => true
  | None => false
  end.

(** [void Function::ResetStats()]. *)
Definition ResetStats (this : Function) : Function :=
  let stats :=
    match stats_ this with
    | None => make_FunctionStats
    | Some s => FunctionStats_Reset s
    end in
  mkFunction (name_ this) (pretty_name_ this) (loaded_module_path_ this)
    (module_base_address_ this) (address_ this) (load_bias_ this)
    (size_ this) (file_ this) (line_ this) (calling_convention_ this)
    (Some stats) (header_members_ this).

(** [const char* Function::GetCallingConventionString()]. [None] is a read
    outside [kCallingConventions]. *)
Definition GetCallingConventionString (this : Function) : option string :=
  if (calling_convention_ this <? 0) ||
     (Z.of_nat (length kCallingConventions) <=?
        static_cast_size_t (calling_convention_ this))
  then Some "UnknownCallConv"%string
  else kCallingConventions !! Z.to_nat (calling_convention_ this).

(** The range-for of [SetOrbitTypeFromName] over the entries in the order
    [entries] in which the hash map yields them: [Some] is the [return
    true] inside the loop, [None] is falling out of it. *)
Fixpoint SetOrbitTypeFromName_loop (name : string)
    (entries : list (string * OrbitType)) (this : Function)
    : option Function :=
  match entries with
  | [] => None
  | (first, second) :: entries' =>
      if StrContains name first
      then Some (SetOrbitType second this)
      else SetOrbitTypeFromName_loop name entries' this
  end.

(** [bool Function::SetOrbitTypeFromName()]. The iteration order of an
    [absl::flat_hash_map] is not specified: it is the argument
    [entries]. *)
Definition SetOrbitTypeFromName (entries : list (string * OrbitType))
    (this : Function) : bool * Function :=
  let name := PrettyName this in
  if StartsWith name "orbit_api::" then
    match SetOrbitTypeFromName_loop name entries this with
    | Some this' => (true, this')
    | None => (false, this)
    end
  else (false, this).

(** The constructor. [blank] is the object after the default member
    initializers of the header; the member initializer list overwrites
    seven members, then the body runs. *)
Definition Function_ctor (entries : list (string * OrbitType))
    (blank : Function)
    (name pretty_name : string) (address load_bias size : Z)
    (file : string) (line : Z) : Function :=
  let this :=
    mkFunction name pretty_name (loaded_module_path_ blank)
      (module_base_address_ blank) address load_bias size file line
      (calling_convention_ blank) (stats_ blank) (header_members_ blank) in
  let this := ResetStats this in
  snd (SetOrbitTypeFromName entries this).

End Function.

Arguments mkFunction {FunctionStats HeaderMembers}.
Arguments name_ {FunctionStats HeaderMembers}.
Arguments pretty_name_ {FunctionStats HeaderMembers}.
Arguments loaded_module_path_ {FunctionStats HeaderMembers}.
Arguments module_base_address_ {FunctionStats HeaderMembers}.
Arguments address_ {FunctionStats HeaderMembers}.
Arguments load_bias_ {FunctionStats HeaderMembers}.
Arguments size_ {FunctionStats HeaderMembers}.
Arguments file_ {FunctionStats HeaderMembers}.
Arguments line_ {FunctionStats HeaderMembers}.
Arguments calling_convention_ {FunctionStats HeaderMembers}.
Arguments stats_ {FunctionStats HeaderMembers}.
Arguments header_members_ {FunctionStats HeaderMembers}.
Arguments mkCapture {FunctionStats HeaderMembers}.
Arguments GSelectedFunctionsMap {FunctionStats HeaderMembers}.
Arguments Select {FunctionStats HeaderMembers}.
Arguments UnSelect {FunctionStats HeaderMembers}.
Arguments IsSelected {FunctionStats HeaderMembers}.
Arguments ResetStats {FunctionStats} make_FunctionStats FunctionStats_Reset
  {HeaderMembers}.
Arguments GetCallingConventionString {FunctionStats HeaderMembers}.
Arguments SetOrbitTypeFromName_loop {FunctionStats HeaderMembers}.
Arguments SetOrbitTypeFromName {FunctionStats HeaderMembers}.
Arguments Function_ctor {FunctionStats} make_FunctionStats
  FunctionStats_Reset {HeaderMembers}.

End OrbitFunction.

(** ** ProcessList.cpp *)

Module ProcessList.

(** *** Outcome: results and their checked observers *)

(** [outcome::result<T, E>]. *)
Inductive result (T E : Type) : Type :=
  | success (v : T)
  | failure (e : E).
Arguments success {T E} v.
Arguments failure {T E} e.

(** [std::error_code], of which the source reads [message()] only. *)
Record error_code : Set := mk_error_code { message : string }.

(** What leaves a function through an exception instead of a return.
    [bad_result_access] and [system_error] are thrown by the observers of a
    result; [invalid_pointer] stands for the dereference of a pointer that
    points to no element. *)
Inductive exception : Set :=
  | bad_result_access (what : string)
  | system_error (e : error_code)
  | invalid_pointer.

Inductive completion (A : Type) : Type :=
  | Returns (a : A)
  | Throws (e : exception).
Arguments Returns {A} a.
Arguments Throws {A} e.

(** [explicit operator bool] of a result. *)
Definition has_value {T E} (r : result T E) : bool :=
  match r with success _ => true | failure _ => false end.

(** [result::value()] with the default policy for [std::error_code]. *)
Definition value {T} (r : result T error_code) : completion T :=
  match r with
  | success v => Returns v
  | failure e => Throws (system_error e)
  end.

(** [result::error()]. The observer has a wide contract: Outcome checks
    that the result holds an error and throws [bad_result_access]
    otherwise. *)
Definition error {T E} (r : result T E) : completion E :=
  match r with
  | failure e => Returns e
  | success _ => Throws (bad_result_access "no error")
  end.

(** *** Data *)

(** A [double], as its IEEE-754 bit pattern; [Refresh] copies such values
    and computes with none. *)
Definition double : Set := Z.
Definition double_zero : double := 0.

(** The message [ProcessInfo], with the fields the source sets. *)
Record ProcessInfo : Set := mkProcessInfo {
  pid : Z;
  name : string;
  cpu_usage : double;
  full_path : string;
  command_line : string;
  is_64_bit : bool
}.

(** A default-constructed message. *)
Definition ProcessInfo_default : ProcessInfo :=
  mkProcessInfo 0 EmptyString double_zero EmptyString EmptyString false.

Definition set_pid (v : Z) (p : ProcessInfo) : ProcessInfo :=
  mkProcessInfo v (name p) (cpu_usage p) (full_path p) (command_line p)
    (is_64_bit p).
Definition set_name (v : string) (p : ProcessInfo) : ProcessInfo :=
  mkProcessInfo (pid p) v (cpu_usage p) (full_path p) (command_line p)
    (is_64_bit p).
Definition set_cpu_usage (v : double) (p : ProcessInfo) : ProcessInfo :=
  mkProcessInfo (pid p) (name p) v (full_path p) (command_line p)
    (is_64_bit p).
Definition set_full_path (v : string) (p : ProcessInfo) : ProcessInfo :=
  mkProcessInfo (pid p) (name p) (cpu_usage p) v (command_line p)
    (is_64_bit p).
Definition set_command_line (v : string) (p : ProcessInfo) : ProcessInfo :=
  mkProcessInfo (pid p) (name p) (cpu_usage p) (full_path p) v (is_64_bit p).
Definition set_is_64_bit (v : bool) (p : ProcessInfo) : ProcessInfo :=
  mkProcessInfo (pid p) (name p) (cpu_usage p) (full_path p)
    (command_line p) v.

(** The conversion of a [uint32_t] to the [int32_t] of a pid. *)
Definition to_int32 (u : Z) : Z :=
  if u <? 2 ^ 31 then u else u - 2 ^ 32.

(** The object: the vector [processes_] and the index [processes_map_],
    whose values point to elements of [processes_]; a pointer is the index
    of its element. The keys are pids, taken as [int32_t] like those of
    [cpu_usage_map] and the [pid] field; the conversion from the parsed
    [uint32_t] is one to one, so nothing below depends on that choice. *)
Record ProcessList : Type := mkProcessList {
  processes_ : list ProcessInfo;
  processes_map_ : gmap Z nat
}.

(** An entry of the directory iterator over [/proc]. *)
Record directory_entry : Set := mk_directory_entry {
  is_directory : bool;
  filename : string
}.

Definition path (e : directory_entry) : string := "/proc/" +:+ filename e.

(** [operator/] of two paths. *)
Definition path_append (p q : string) : string := p +:+ "/" +:+ q.

(** What [Refresh] reads from the machine: the per-pid CPU aggregate, the
    listing of [/proc], the content of files and the bitness of a
    process. [proc_entries] is what an iteration over [/proc] yields when
    it runs to its end; an iteration that the file system interrupts with
    a [filesystem_error] is not described here, and every statement below
    is about calls whose iteration runs to its end. *)
Record System : Type := mkSystem {
  GetCpuUtilization : result (gmap Z double) error_code;
  proc_entries : list directory_entry;
  FileToString : string -> result string error_code;
  Is64Bit : Z -> result bool error_code
}.

(** What [Refresh] does to the outside, in order: the files it reads, the
    bitness queries it makes and the lines it logs through [ERROR] (the
    format string and its arguments). *)
Inductive argument : Set :=
  | arg_string (s : string)
  | arg_int (z : Z).

Inductive event : Set :=
  | ReadFile (file : string)
  | QueryIs64Bit (p : Z)
  | LogError (format : string) (args : list argument).

(** [cmdline.substr(0, cmdline.find('\0'))]. *)
Fixpoint up_to_nul (s : string) : string :=
  match s with
  | EmptyString => EmptyString
  | String c s' =>
      if Ascii.eqb c "000" then EmptyString else String c (up_to_nul s')
  end.

(** [std::replace(s.begin(), s.end(), old, new)]. *)
Fixpoint replace (old new : ascii) (s : string) : string :=
  match s with
  | EmptyString => EmptyString
  | String c s' =>
      String (if Ascii.eqb c old then new else c) (replace old new s')
  end.

(** [cpu_usage_map[key]]: the value under [key], a zero when there is none
    (the entry [operator[]] then adds to the local map reads as the same
    zero ever after). *)
Definition cpu_usage_at (cpu_usage_map : gmap Z double) (key : Z) : double :=
  default double_zero (cpu_usage_map !! key).

(** *** The state [Refresh] runs in *)

(** The object, the effects so far, and the successive values the object
    has taken: every write to a member or through a pointer into
    [processes_] adds the new value of the object to [history]. *)
Record Machine : Type := mkMachine {
  this_ : ProcessList;
  trace : list event;
  history : list ProcessList
}.

Definition M (A : Type) : Type := Machine -> completion A * Machine.

#[global] Instance M_ret : MRet M :=
  fun A (a : A) s => (Returns a, s).

#[global] Instance M_bind : MBind M :=
  fun A B (k : A -> M B) (m : M A) s =>
    match m s with
    | (Returns a, s') => k a s'
    | (Throws e, s') => (Throws e, s')
    end.

Definition lift {A} (c : completion A) : M A := fun s => (c, s).

Definition emit (e : event) : M unit :=
  fun s => (Returns tt, mkMachine (this_ s) (trace s ++ [e]) (history s)).

Definition get_this : M ProcessList := fun s => (Returns (this_ s), s).

Definition put_this (pl : ProcessList) : M unit :=
  fun s => (Returns tt, mkMachine pl (trace s) (history s ++ [pl])).

(** [*ptr] for a pointer into [processes_]. *)
Definition deref (ptr : nat) : M ProcessInfo :=
  this ← get_this;
  match processes_ this !! ptr with
  | Some process => mret process
  | None => lift (Throws invalid_pointer)
  end.

(** A write through a pointer into [processes_]. *)
Definition store (ptr : nat) (process : ProcessInfo) : M unit :=
  this ← get_this;
  put_this (mkProcessList (<[ptr := process]> (processes_ this))
              (processes_map_ this)).

(** The calls into the system, each leaving its event. *)
Definition call_FileToString (sys : System) (file : string)
    : M (result string error_code) :=
  emit (ReadFile file);; mret (FileToString sys file).

Definition call_Is64Bit (sys : System) (p : Z) : M (result bool error_code) :=
  emit (QueryIs64Bit p);; mret (Is64Bit sys p).

Definition ERROR (format : string) (args : list argument) : M unit :=
  emit (LogError format args).

(** *** [ProcessList::Refresh] *)

(** The format string of the third [ERROR], which holds two double quotes
    (character 34). *)
Definition Is64Bit_error_format : string :=
  "Failed to get if process " +:+ String (ascii_of_nat 34) "%s" +:+
  String (ascii_of_nat 34) " (pid %d) is 64 bit: %s".

(** One turn of the loop over [/proc]; the result is [updated_processes]
    after the turn. Every [mret updated_processes] that does not come last
    on its path is a [continue]. *)
Definition Refresh_body (sys : System) (cpu_usage_map : gmap Z double)
    (entry : directory_entry) (updated_processes : list ProcessInfo)
    : M (list ProcessInfo) :=
  if negb (is_directory entry) then mret updated_processes
  else
    let folder_name := filename entry in
    match SimpleAtoi folder_name with
    | None => mret updated_processes
    | Some upid =>
        let pid' := to_int32 upid in
        this ← get_this;
        match processes_map_ this !! pid' with
        | Some ptr =>
            process ← deref ptr;
            let process :=
              set_cpu_usage (cpu_usage_at cpu_usage_map (pid process))
                process in
            store ptr process;;
            mret (updated_processes ++ [process])
        | None =>
            let name_file_path := path_append (path entry) "comm" in
            name_file_result ← call_FileToString sys name_file_path;
            if negb (has_value name_file_result) then
              e ← lift (error name_file_result);
              ERROR "Failed to read %s: %s"
                [arg_string name_file_path; arg_string (message e)];;
              mret updated_processes
            else
              name_read ← lift (value name_file_result);
              let name' := StripTrailingAsciiWhitespace name_read in
              if String.eqb name' EmptyString then mret updated_processes
              else
                let process := set_pid pid' ProcessInfo_default in
                let process := set_name name' process in
                let process :=
                  set_cpu_usage (cpu_usage_at cpu_usage_map pid') process in
                let cmdline_file_path := path_append (path entry) "cmdline" in
                cmdline_file_result ←
                  call_FileToString sys cmdline_file_path;
                if negb (has_value cmdline_file_result) then
                  e ← lift (error name_file_result);
                  ERROR "Failed to read %s: %s"
                    [arg_string cmdline_file_path; arg_string (message e)];;
                  mret updated_processes
                else
                  cmdline ← lift (value cmdline_file_result);
                  let process := set_full_path (up_to_nul cmdline) process in
                  let cmdline := replace "000" " " cmdline in
                  let process := set_command_line cmdline process in
                  is_64_bit_result ← call_Is64Bit sys pid';
                  if negb (has_value is_64_bit_result) then
                    e ← lift (error is_64_bit_result);
                    ERROR Is64Bit_error_format
                      [arg_string name'; arg_int upid;
                       arg_string (message e)];;
                    mret updated_processes
                  else
                    b ← lift (value is_64_bit_result);
                    let process := set_is_64_bit b process in
                    mret (updated_processes ++ [process])
        end
    end.

(** The loop over the entries of [/proc]. *)
Fixpoint Refresh_loop (sys : System) (cpu_usage_map : gmap Z double)
    (entries : list directory_entry) (updated_processes : list ProcessInfo)
    : M (list ProcessInfo) :=
  match entries with
  | [] => mret updated_processes
  | entry :: entries' =>
      updated_processes ←
        Refresh_body sys cpu_usage_map entry updated_processes;
      Refresh_loop sys cpu_usage_map entries' updated_processes
  end.

(** The last loop: [processes_map_[process.pid()] = &process] for the
    elements of [processes_] from index [i] on. *)
Fixpoint index_loop (i : nat) (processes : list ProcessInfo) : M unit :=
  match processes with
  | [] => mret tt
  | process :: processes' =>
      this ← get_this;
      put_this (mkProcessList (processes_ this)
                  (<[pid process := i]> (processes_map_ this)));;
      index_loop (S i) processes'
  end.

Definition Refresh (sys : System) : M (result unit string) :=
  let cpu_result := GetCpuUtilization sys in
  if negb (has_value cpu_result) then
    e ← lift (error cpu_result);
    mret (failure
            ("Unable to retrieve cpu usage of processes: " +:+ message e))
  else
    cpu_usage_map ← lift (value cpu_result);
    updated_processes ← Refresh_loop sys cpu_usage_map (proc_entries sys) [];
    this ← get_this;
    put_this (mkProcessList updated_processes (processes_map_ this));;
    this ← get_this;
    put_this (mkProcessList (processes_ this) ∅);;
    this ← get_this;
    index_loop 0 (processes_ this);;
    mret (success tt).

(** A call of [Refresh] on an object: how it completes, the object after
    it, the effects, and the values the object took on the way. *)
Definition start (pl : ProcessList) : Machine := mkMachine pl [] [].

Definition run_Refresh (sys : System) (pl : ProcessList)
    : completion (result unit string) * Machine :=
  Refresh sys (start pl).

(** The tables a reader of [processes_] can come across between two
    writes of the call: the one before the call and those of [history].
    The code takes no lock; what a reader sees that runs during a write
    is not described here. *)
Definition visible_tables (sys : System) (pl : ProcessList)
    : list (list ProcessInfo) :=
  processes_ pl :: (processes_ <$> history (run_Refresh sys pl).2).

(** A newly constructed object. *)
Definition ProcessList_new : ProcessList := mkProcessList [] ∅.

(** The objects a program can hold: a new one, and the one any call of
    [Refresh] leaves, whichever way the call completes. *)
Inductive reachable : ProcessList -> Prop :=
  | reachable_new : reachable ProcessList_new
  | reachable_Refresh sys pl :
      reachable pl -> reachable (this_ (run_Refresh sys pl).2).

(** Every pointer of the index points to an element, and to one with the
    pid it is filed under. *)
Definition index_sound (pl : ProcessList) : Prop :=
  forall (k : Z) (ptr : nat),
    processes_map_ pl !! k = Some ptr ->
    exists process,
      processes_ pl !! ptr = Some process /\ pid process = k.

(** Two records that differ in [cpu_usage] at most. *)
Definition same_but_cpu_usage (p q : ProcessInfo) : Prop :=
  set_cpu_usage double_zero p = set_cpu_usage double_zero q.

(** [q] is [p], or [p] with its [cpu_usage] taken from the aggregate. *)
Definition cpu_refreshed (cpu_usage_map : gmap Z double)
    (p q : ProcessInfo) : Prop :=
  q = p \/ q = set_cpu_usage (cpu_usage_at cpu_usage_map (pid p)) p.

(** An object that has the index of [pl] and, element by element, the
    records of [pl] with some of the [cpu_usage] fields refreshed. *)
Definition refreshed_in_place (cpu_usage_map : gmap Z double)
    (pl pl' : ProcessList) : Prop :=
  processes_map_ pl' = processes_map_ pl /\
  Forall2 (cpu_refreshed cpu_usage_map) (processes_ pl) (processes_ pl').

(** The entries the loop does not skip at once: directories whose name
    [SimpleAtoi] accepts. *)
Definition is_pid_directory (entry : directory_entry) : bool :=
  is_directory entry &&
  match SimpleAtoi (filename entry) with Some _ => true | None => false end.

(** The system with another listing of [/proc]. *)
Definition with_proc_entries (sys : System) (entries : list directory_entry)
    : System :=
  mkSystem (GetCpuUtilization sys) entries (FileToString sys) (Is64Bit sys).

(** The record a turn of the loop that returns appends for [entry], as a
    function of the system and of the object [pl] before the call; [None]
    when the turn appends nothing. *)
Definition record_of_entry (sys : System) (cpu_usage_map : gmap Z double)
    (pl : ProcessList) (entry : directory_entry) : option ProcessInfo :=
  if negb (is_directory entry) then None
  else
    match SimpleAtoi (filename entry) with
    | None => None
    | Some upid =>
        match processes_map_ pl !! to_int32 upid with
        | Some ptr =>
            match processes_ pl !! ptr with
            | Some process =>
                Some (set_cpu_usage
                        (cpu_usage_at cpu_usage_map (pid process)) process)
            | None => None
            end
        | None =>
            match FileToString sys (path_append (path entry) "comm"),
                  FileToString sys (path_append (path entry) "cmdline"),
                  Is64Bit sys (to_int32 upid) with
            | success name_read, success cmdline, success b =>
                let name' := StripTrailingAsciiWhitespace name_read in
                if String.eqb name' EmptyString then None
                else
                  Some (mkProcessInfo (to_int32 upid) name'
                          (cpu_usage_at cpu_usage_map (to_int32 upid))
                          (up_to_nul cmdline) (replace "000" " " cmdline) b)
            | _, _, _ => None
            end
        end
    end.

(** The effects of a turn of the loop on [entry]: none unless the entry is
    a directory with a pid for a name that the index of [pl] does not
    know; then reads of its two files, a query of its bitness and log
    lines. *)
Definition event_of_new_entry (pl : ProcessList) (entry : directory_entry)
    (ev : event) : Prop :=
  is_directory entry = true /\
  exists upid,
    SimpleAtoi (filename entry) = Some upid /\
    processes_map_ pl !! to_int32 upid = None /\
    (ev = ReadFile (path_append (path entry) "comm") \/
     ev = ReadFile (path_append (path entry) "cmdline") \/
     ev = QueryIs64Bit (to_int32 upid) \/
     exists format args, ev = LogError format args).

End ProcessList.

(** ** Concrete machines and functions *)

Module Examples.

Import OrbitFunction ProcessList.

Definition readable {T} (v : T) : result T error_code := success v.

Definition unreadable {T} (what : string) : result T error_code :=
  failure (mk_error_code what).

Definition newline : string := String (ascii_of_nat 10) EmptyString.
Definition nul : string := String (ascii_of_nat 0) EmptyString.

Definition dir (name : string) : directory_entry :=
  mk_directory_entry true name.
Definition regular_file (name : string) : directory_entry :=
  mk_directory_entry false name.

(** A machine with two processes, [init] (pid 1) and [sh] (pid 2). *)
Definition listing : list directory_entry :=
  [dir "1"; regular_file "uptime"; dir "self"; dir "2"].

Definition files (file : string) : result string error_code :=
  if String.eqb file "/proc/1/comm" then readable ("init" +:+ newline)
  else if String.eqb file "/proc/1/cmdline"
  then readable ("/sbin/init" +:+ nul +:+ "splash" +:+ nul)
  else if String.eqb file "/proc/2/comm" then readable ("sh" +:+ newline)
  else if String.eqb file "/proc/2/cmdline" then readable ("/bin/sh" +:+ nul)
  else unreadable "No such file or directory".

Definition all_64_bit (p : Z) : result bool error_code := readable true.

(** The bit patterns of [50.0] and [12.5]. *)
Definition double_50 : double := 4632233691727265792.
Definition double_12_5 : double := 4623226492472524800.

(** The machine when idle, then with both processes using CPU. *)
Definition sys_idle : System :=
  mkSystem (readable ∅) listing files all_64_bit.

Definition sys_busy : System :=
  mkSystem (readable (<[1 := double_50]> (<[2 := double_12_5]> ∅)))
    listing files all_64_bit.

(** The machine when the CPU utilization cannot be read. *)
Definition sys_cpu_down : System :=
  mkSystem (unreadable "Permission denied") listing files all_64_bit.

(** The machine when [init] can be named and its command line cannot be
    read. *)
Definition files_cmdline_gone (file : string) : result string error_code :=
  if String.eqb file "/proc/1/cmdline" then unreadable "Permission denied"
  else files file.

Definition sys_cmdline_gone : System :=
  mkSystem (readable ∅) listing files_cmdline_gone all_64_bit.

(** The object after a first call on the idle machine. *)
Definition table_idle : ProcessList :=
  this_ (run_Refresh sys_idle ProcessList_new).2.

(** A function object: no statistics type to speak of, the orbit type as
    the one member the header adds, the accessors reading the members. *)
Definition demo_Function : Type := Function unit (option OrbitType).

Definition demo_PrettyName (f : demo_Function) : string := pretty_name_ f.

Definition demo_GetVirtualAddress (f : demo_Function) : Z :=
  (address_ f + module_base_address_ f - load_bias_ f) mod 2 ^ 64.

Definition demo_SetOrbitType (type : OrbitType) (f : demo_Function)
    : demo_Function :=
  mkFunction (name_ f) (pretty_name_ f) (loaded_module_path_ f)
    (module_base_address_ f) (address_ f) (load_bias_ f) (size_ f) (file_ f)
    (line_ f) (calling_convention_ f) (stats_ f) (Some type).

Definition demo_function (pretty_name : string) (address : Z)
    (calling_convention : Z) : demo_Function :=
  mkFunction pretty_name pretty_name "a.out" 4194304 address 0 16 "a.cpp" 1
    calling_convention None None.

Definition no_selection : Capture unit (option OrbitType) := mkCapture ∅.

End Examples.


(** ** Descriptions of a scan *)

Module Scan.

Import ProcessList.

(** The pid a turn of the loop works on: that of a directory whose name
    [SimpleAtoi] accepts. *)
Definition pid_of_entry (entry : directory_entry) : option Z :=
  if is_directory entry then to_int32 <$> SimpleAtoi (filename entry)
  else None.

Definition scanned_pids (entries : list directory_entry) : list Z :=
  omap pid_of_entry entries.

(** The entries on which a turn of the loop reaches the second [ERROR]:
    a directory with a pid the index of [pl] does not know, whose [comm]
    is read and gives a name, and whose [cmdline] cannot be read. *)
Definition cmdline_unreadable (sys : System) (pl : ProcessList)
    (entry : directory_entry) : bool :=
  is_directory entry &&
  match SimpleAtoi (filename entry) with
  | None => false
  | Some upid =>
      match processes_map_ pl !! to_int32 upid with
      | Some _ => false
      | None =>
          match FileToString sys (path_append (path entry) "comm") with
          | failure _ => false
          | success name_read =>
              negb (String.eqb (StripTrailingAsciiWhitespace name_read)
                      EmptyString) &&
              negb (has_value
                      (FileToString sys
                         (path_append (path entry) "cmdline")))
          end
      end
  end.

(** The index the last loop of [Refresh] builds over [processes], counting
    from [i], on top of [index]. *)
Fixpoint index_of (i : nat) (processes : list ProcessInfo)
    (index : gmap Z nat) : gmap Z nat :=
  match processes with
  | [] => index
  | process :: processes' =>
      index_of (S i) processes' (<[pid process := i]> index)
  end.

(** Every pointer of the index points to an element. *)
Definition pointers_valid (pl : ProcessList) : Prop :=
  forall (k : Z) (ptr : nat),
    processes_map_ pl !! k = Some ptr -> is_Some (processes_ pl !! ptr).

(** A string without the character of code 0. *)
Definition no_nul (s : string) : Prop :=
  "000"%char ∉ list_ascii_of_string s.

(** The busy machine once a third process, [cron] (pid 3), has started:
    its [comm] can be read and its [cmdline] cannot. *)
Definition files_cron_gone (file : string) : result string error_code :=
  if String.eqb file "/proc/3/comm"
  then Examples.readable ("cron" +:+ Examples.newline)
  else if String.eqb file "/proc/3/cmdline"
  then Examples.unreadable "Permission denied"
  else Examples.files file.

Definition sys_cron_gone : System :=
  mkSystem (GetCpuUtilization Examples.sys_busy)
    (Examples.listing ++ [Examples.dir "3"]) files_cron_gone
    Examples.all_64_bit.

End Scan.
(** * Theorems *)

Import OrbitFunction.

(** ** Strings *)

Lemma StartsWith_correct (text prefix : string) :
  StartsWith text prefix = true <-> exists rest, text = prefix +:+ rest.
Proof.
  revert text. induction prefix as [|p prefix IH]; intros text; simpl.
  - split; [intros _; exists text; reflexivity | done].
  - destruct text as [|t text].
    + split; [done | intros [rest H]; discriminate H].
    + destruct (Ascii.eqb_spec t p) as [->|Hne].
      * rewrite IH. split; intros [rest H]; exists rest.
        -- by rewrite H.
        -- by injection H.
      * split; [done | intros [rest H]; injection H; congruence].
Qed.

Lemma StrContains_correct (haystack needle : string) :
  StrContains haystack needle = true <->
  exists before after, haystack = before +:+ needle +:+ after.
Proof.
  induction haystack as [|c haystack IH].
  - simpl. rewrite orb_false_r, StartsWith_correct. split.
    + intros [rest H]. by exists EmptyString, rest.
    + intros [before [after H]]. destruct before; [by exists after|].
      discriminate H.
  - change (StrContains (String c haystack) needle)
      with (StartsWith (String c haystack) needle
            || StrContains haystack needle).
    rewrite orb_true_iff, StartsWith_correct, IH. split.
    + intros [[rest H]|[before [after H]]].
      * by exists EmptyString, rest.
      * exists (String c before), after. simpl. by rewrite H.
    + intros [before [after H]]. destruct before as [|b before].
      * left. by exists after.
      * right. exists before, after. simpl in H. by injection H.
Qed.

(** ** OrbitFunction.cpp *)

Section FunctionFacts.

Context {FunctionStats HeaderMembers : Type}.
Abbreviation Function := (Function FunctionStats HeaderMembers).
Abbreviation Capture := (Capture FunctionStats HeaderMembers).
Variable make_FunctionStats : FunctionStats.
Variable FunctionStats_Reset : FunctionStats -> FunctionStats.
Variable PrettyName : Function -> string.
Variable GetVirtualAddress : Function -> Z.
Variable SetOrbitType : OrbitType -> Function -> Function.

Lemma kCallingConventions_length : length kCallingConventions = 26%nat.
Proof. reflexivity. Qed.

(** C8. For every value an [int] can take in the calling-convention
    field, [GetCallingConventionString] reads inside the table or not at
    all: for a value from 0 to 25 it returns the name stored at that
    index, for a negative value or one from 26 on it returns
    ["UnknownCallConv"]. *)
Theorem GetCallingConventionString_safe (this : Function) :
  is_int (calling_convention_ this) ->
  (exists s, GetCallingConventionString this = Some s) /\
  (0 <= calling_convention_ this <= 25 ->
     GetCallingConventionString this =
       kCallingConventions !! Z.to_nat (calling_convention_ this) /\
     (Z.to_nat (calling_convention_ this) < length kCallingConventions)%nat) /\
  (calling_convention_ this < 0 \/ 26 <= calling_convention_ this ->
     GetCallingConventionString this = Some "UnknownCallConv"%string).
Proof.
  unfold is_int, GetCallingConventionString, static_cast_size_t.
  rewrite kCallingConventions_length.
  set (cc := calling_convention_ this). intros Hint.
  assert (Hmod : 0 <= cc -> cc mod 2 ^ 64 = cc)
    by (intros; apply Z.mod_small; lia).
  assert (Hin : 0 <= cc <= 25 ->
            (cc <? 0) || (Z.of_nat 26 <=? cc mod 2 ^ 64) = false).
  { intros H. rewrite Hmod by lia.
    apply orb_false_iff; split; [apply Z.ltb_ge | apply Z.leb_gt]; lia. }
  assert (Hout : cc < 0 \/ 26 <= cc ->
            (cc <? 0) || (Z.of_nat 26 <=? cc mod 2 ^ 64) = true).
  { intros [H|H]; apply orb_true_iff.
    - left. apply Z.ltb_lt. lia.
    - right. rewrite Hmod by lia. apply Z.leb_le. lia. }
  split; [|split].
  - destruct (decide (0 <= cc <= 25)) as [H|H].
    + rewrite Hin by done.
      destruct (lookup_lt_is_Some_2 kCallingConventions (Z.to_nat cc))
        as [s Hs]; [rewrite kCallingConventions_length; lia|].
      by exists s.
    + rewrite Hout by lia. by eexists.
  - intros H. rewrite Hin by done. split; [done | lia].
  - intros H. by rewrite Hout.
Qed.

Lemma SetOrbitTypeFromName_loop_Some name entries this this' :
  SetOrbitTypeFromName_loop SetOrbitType name entries this = Some this' ->
  exists pattern type,
    (pattern, type) ∈ entries /\ StrContains name pattern = true /\
    this' = SetOrbitType type this.
Proof.
  induction entries as [|[pattern type] entries IH]; simpl; [done|].
  destruct (StrContains name pattern) eqn:Hc.
  - intros [= <-]. exists pattern, type. split; [left | done].
  - intros H. destruct (IH H) as (p & t & Hin & Hp & Ht).
    exists p, t. split; [by right | done].
Qed.

Lemma SetOrbitTypeFromName_loop_None name entries this :
  SetOrbitTypeFromName_loop SetOrbitType name entries this = None <->
  forall pattern type,
    (pattern, type) ∈ entries -> StrContains name pattern = false.
Proof.
  induction entries as [|[pattern type] entries IH]; simpl.
  - split; [intros _ p t H; by apply elem_of_nil in H | done].
  - destruct (StrContains name pattern) eqn:Hc.
    + split; [done|]. intros H.
      specialize (H pattern type (list_elem_of_here _ _)). congruence.
    + rewrite IH. split.
      * intros H p t [[= -> ->]|Hin]%elem_of_cons; eauto.
      * intros H p t Hin. apply (H p t). by right.
Qed.

(** C9. Whatever the order in which the hash map yields its twelve
    entries, [SetOrbitTypeFromName] returns [true] exactly when the pretty
    name starts with ["orbit_api::"] and contains one of the twelve
    patterns; it then has set the orbit type paired with a pattern the
    name contains; when it returns [false] the function is unchanged. The
    constructor ends with a call of it. *)
Theorem SetOrbitTypeFromName_spec (entries : list (string * OrbitType))
    (this : Function) :
  entries ≡ₚ function_name_to_type_map ->
  let matches pattern type :=
    (pattern, type) ∈ function_name_to_type_map /\
    StrContains (PrettyName this) pattern = true in
  let r := SetOrbitTypeFromName PrettyName SetOrbitType entries this in
  (r.1 = true <->
     StartsWith (PrettyName this) "orbit_api::" = true /\
     exists pattern type, matches pattern type) /\
  (r.1 = true ->
     exists pattern type,
       matches pattern type /\ r.2 = SetOrbitType type this) /\
  (r.1 = false -> r.2 = this) /\
  (forall blank name pretty_name address load_bias size file line,
     Function_ctor make_FunctionStats FunctionStats_Reset PrettyName
       SetOrbitType entries blank name pretty_name address load_bias size
       file line =
     (SetOrbitTypeFromName PrettyName SetOrbitType entries
        (ResetStats make_FunctionStats FunctionStats_Reset
           (mkFunction name pretty_name (loaded_module_path_ blank)
              (module_base_address_ blank) address load_bias size file
              line (calling_convention_ blank) (stats_ blank)
              (header_members_ blank)))).2).
Proof.
  intros Hperm matches r. subst r matches. unfold SetOrbitTypeFromName.
  destruct (StartsWith (PrettyName this) "orbit_api::") eqn:Hstart;
    [destruct (SetOrbitTypeFromName_loop SetOrbitType (PrettyName this)
       entries this) as [this'|] eqn:Hloop|]; simpl.
  - apply SetOrbitTypeFromName_loop_Some in Hloop
      as (p & t & Hin & Hp & ->).
    rewrite Hperm in Hin.
    split; [|split; [|split]]; [| |done|reflexivity].
    + split; [|done]. intros _. split; [done|]. by exists p, t.
    + intros _. by exists p, t.
  - rewrite SetOrbitTypeFromName_loop_None in Hloop.
    split; [|split; [|split]]; [|done|done|reflexivity].
    split; [done|].
    intros [_ (p & t & Hin & Hp)]. rewrite <- Hperm in Hin.
    rewrite (Hloop p t Hin) in Hp. done.
  - split; [|split; [|split]]; [|done|done|reflexivity].
    split; [done|]. by intros [? _].
Qed.

(** C10. After [f.Select()] every function at the virtual address of [f]
    (so [f] itself) is selected, and after [f.UnSelect()] none of them is;
    a function at another address is selected or not as before. *)
Theorem Select_UnSelect_IsSelected (f g : Function) (c : Capture) :
  IsSelected GetVirtualAddress f (Select GetVirtualAddress f c) = true /\
  IsSelected GetVirtualAddress f (UnSelect GetVirtualAddress f c) = false /\
  (GetVirtualAddress g = GetVirtualAddress f ->
     IsSelected GetVirtualAddress g (Select GetVirtualAddress f c) = true /\
     IsSelected GetVirtualAddress g (UnSelect GetVirtualAddress f c)
       = false) /\
  (GetVirtualAddress g <> GetVirtualAddress f ->
     IsSelected GetVirtualAddress g (Select GetVirtualAddress f c)
       = IsSelected GetVirtualAddress g c /\
     IsSelected GetVirtualAddress g (UnSelect GetVirtualAddress f c)
       = IsSelected GetVirtualAddress g c).
Proof.
  unfold IsSelected, Select, UnSelect; simpl.
  rewrite lookup_insert_eq, lookup_delete_eq.
  split; [done|]. split; [done|]. split; intros H.
  - rewrite H, lookup_insert_eq, lookup_delete_eq. done.
  - rewrite lookup_insert_ne, lookup_delete_ne by done. done.
Qed.

(** C6, as the code has it. The selection state is one map for the whole
    program, keyed by virtual address: [Select] files the function under
    its address and [UnSelect] removes that key, both leaving every other
    key alone, and [IsSelected] depends on that key of the map only. *)
Theorem selection_is_one_map_by_address (f : Function) (c : Capture) :
  GSelectedFunctionsMap (Select GetVirtualAddress f c)
    !! GetVirtualAddress f = Some f /\
  GSelectedFunctionsMap (UnSelect GetVirtualAddress f c)
    !! GetVirtualAddress f = None /\
  (forall a, a <> GetVirtualAddress f ->
     GSelectedFunctionsMap (Select GetVirtualAddress f c) !! a
       = GSelectedFunctionsMap c !! a /\
     GSelectedFunctionsMap (UnSelect GetVirtualAddress f c) !! a
       = GSelectedFunctionsMap c !! a) /\
  (forall c',
     GSelectedFunctionsMap c !! GetVirtualAddress f
       = GSelectedFunctionsMap c' !! GetVirtualAddress f ->
     IsSelected GetVirtualAddress f c = IsSelected GetVirtualAddress f c').
Proof.
  unfold Select, UnSelect, IsSelected; simpl.
  rewrite lookup_insert_eq, lookup_delete_eq. repeat split; try done.
  - by rewrite lookup_insert_ne.
  - by rewrite lookup_delete_ne.
  - intros c' ->. done.
Qed.

End FunctionFacts.

(** ** The claims about [Function], at concrete functions *)

Import Examples.

Lemma GetCallingConventionString_safe_witness :
  GetCallingConventionString (demo_function "main" 4096 11) =
    kCallingConventions !! 11%nat /\
  GetCallingConventionString (demo_function "main" 4096 (-1)) =
    Some "UnknownCallConv"%string /\
  GetCallingConventionString (demo_function "main" 4096 26) =
    Some "UnknownCallConv"%string.
Proof.
  split; [|split].
  - apply (proj1 (proj2 (GetCallingConventionString_safe
                           (demo_function "main" 4096 11)
                           ltac:(unfold is_int; simpl; lia)))).
    simpl; lia.
  - apply (proj2 (proj2 (GetCallingConventionString_safe
                           (demo_function "main" 4096 (-1))
                           ltac:(unfold is_int; simpl; lia)))).
    left. simpl; lia.
  - apply (proj2 (proj2 (GetCallingConventionString_safe
                           (demo_function "main" 4096 26)
                           ltac:(unfold is_int; simpl; lia)))).
    right. simpl; lia.
Defined.

Lemma SetOrbitTypeFromName_spec_witness :
  (SetOrbitTypeFromName demo_PrettyName demo_SetOrbitType
     function_name_to_type_map
     (demo_function "orbit_api::Start(char const*)" 4096 0)).1 = true.
Proof.
  apply (proj1 (SetOrbitTypeFromName_spec tt (fun _ => tt) demo_PrettyName
                  demo_SetOrbitType function_name_to_type_map
                  (demo_function "orbit_api::Start(char const*)" 4096 0)
                  (reflexivity _))).
  split; [reflexivity|].
  exists "Start("%string, ORBIT_TIMER_START. split; [left | reflexivity].
Defined.

Lemma Select_UnSelect_IsSelected_witness :
  IsSelected demo_GetVirtualAddress (demo_function "g" 4096 0)
    (Select demo_GetVirtualAddress (demo_function "f" 4096 0) no_selection)
    = true /\
  IsSelected demo_GetVirtualAddress (demo_function "h" 8192 0)
    (Select demo_GetVirtualAddress (demo_function "f" 4096 0) no_selection)
    = IsSelected demo_GetVirtualAddress (demo_function "h" 8192 0)
        no_selection.
Proof.
  split.
  - apply (proj1 (proj2 (proj2
             (Select_UnSelect_IsSelected demo_GetVirtualAddress
                (demo_function "f" 4096 0) (demo_function "g" 4096 0)
                no_selection)))).
    reflexivity.
  - apply (proj2 (proj2 (proj2
             (Select_UnSelect_IsSelected demo_GetVirtualAddress
                (demo_function "f" 4096 0) (demo_function "h" 8192 0)
                no_selection)))).
    vm_compute. discriminate.
Defined.

Lemma selection_is_one_map_by_address_witness :
  GSelectedFunctionsMap
    (Select demo_GetVirtualAddress (demo_function "f" 4096 0) no_selection)
    !! 8192 = GSelectedFunctionsMap no_selection !! 8192.
Proof.
  apply (proj1 (proj2 (proj2 (selection_is_one_map_by_address
                                demo_GetVirtualAddress
                                (demo_function "f" 4096 0) no_selection)))).
  vm_compute. discriminate.
Defined.

(** C6, refuted as stated. [Select] writes the program-wide map keyed by
    address, and [IsSelected] reads it: selecting one function changes the
    map and the answer for that function. *)
Lemma Select_writes_the_global_map :
  GSelectedFunctionsMap
    (Select demo_GetVirtualAddress (demo_function "f" 4096 0) no_selection)
    <> GSelectedFunctionsMap no_selection /\
  IsSelected demo_GetVirtualAddress (demo_function "f" 4096 0)
    (Select demo_GetVirtualAddress (demo_function "f" 4096 0) no_selection)
    <> IsSelected demo_GetVirtualAddress (demo_function "f" 4096 0)
         no_selection.
Proof.
  split.
  - intros H.
    apply (f_equal (fun m => m !! demo_GetVirtualAddress
                                   (demo_function "f" 4096 0))) in H.
    simpl in H. rewrite lookup_insert_eq, lookup_empty in H. discriminate H.
  - unfold IsSelected, Select. simpl.
    rewrite lookup_insert_eq, lookup_empty. discriminate.
Qed.

(** ** ProcessList.cpp *)

Import ProcessList.

Ltac run_M :=
  repeat (progress unfold deref, store, call_FileToString, call_Is64Bit,
            ERROR, error, value, has_value, lift, emit, get_this, put_this,
            mbind, M_bind, mret, M_ret in * );
  simpl in *.

Lemma cpu_refreshed_id cpu_usage_map p : cpu_refreshed cpu_usage_map p p.
Proof. by left. Qed.

Lemma cpu_refreshed_set cpu_usage_map p q :
  cpu_refreshed cpu_usage_map p q ->
  set_cpu_usage (cpu_usage_at cpu_usage_map (pid q)) q
  = set_cpu_usage (cpu_usage_at cpu_usage_map (pid p)) p.
Proof. by intros [->| ->]. Qed.

Lemma cpu_refreshed_same cpu_usage_map p q :
  cpu_refreshed cpu_usage_map p q -> same_but_cpu_usage p q.
Proof. by intros [->| ->]. Qed.

Lemma cpu_refreshed_pid cpu_usage_map p q :
  cpu_refreshed cpu_usage_map p q -> pid q = pid p.
Proof. by intros [->| ->]. Qed.

Lemma refreshed_in_place_refl cpu_usage_map pl :
  refreshed_in_place cpu_usage_map pl pl.
Proof.
  split; [done|]. apply Forall2_same_length_lookup_2; [done|].
  intros i p q Hp Hq. rewrite Hp in Hq. injection Hq as <-. by left.
Qed.

Lemma Forall2_cpu_refreshed_insert cpu_usage_map l k ptr p q :
  Forall2 (cpu_refreshed cpu_usage_map) l k ->
  l !! ptr = Some p -> k !! ptr = Some q ->
  Forall2 (cpu_refreshed cpu_usage_map) l
    (<[ptr := set_cpu_usage (cpu_usage_at cpu_usage_map (pid q)) q]> k).
Proof.
  intros HF Hp Hq.
  rewrite <- (list_insert_id l ptr p Hp) at 1.
  apply Forall2_insert; [done|].
  rewrite (cpu_refreshed_set cpu_usage_map p q).
  - by right.
  - eapply Forall2_lookup_lr; eauto.
Qed.

Lemma extends_nil {A} (P : A -> Prop) (l : list A) :
  exists k, l = l ++ k /\ Forall P k.
Proof. exists []. by rewrite app_nil_r. Qed.

Ltac extends_by tac :=
  first
    [ apply extends_nil
    | eexists; split;
      [ rewrite <- ?(assoc_L (++)); reflexivity
      | simpl; repeat (apply Forall_cons_2; [tac|]); apply Forall_nil_2 ] ].

Ltac body_done Hdir Hatoi Hptr :=
  intros [= <- <-]; simpl;
  split; [by split|];
  split; [extends_by idtac|];
  split;
  [ extends_by
      ltac:(split; [exact Hdir|]; eexists; split; [exact Hatoi|];
            split; [exact Hptr|]; eauto 10)
  | intros ? [= <-]; repeat case_match; simplify_eq; simpl;
    rewrite ?app_nil_r; reflexivity ].

Lemma Refresh_body_spec sys cpu_usage_map pl entry updated_processes s c s' :
  refreshed_in_place cpu_usage_map pl (this_ s) ->
  Refresh_body sys cpu_usage_map entry updated_processes s = (c, s') ->
  refreshed_in_place cpu_usage_map pl (this_ s') /\
  (exists hs, history s' = history s ++ hs /\
              Forall (refreshed_in_place cpu_usage_map pl) hs) /\
  (exists evs, trace s' = trace s ++ evs /\
               Forall (event_of_new_entry pl entry) evs) /\
  (forall updated_processes',
     c = Returns updated_processes' ->
     updated_processes' =
       updated_processes ++
       option_list (record_of_entry sys cpu_usage_map pl entry)).
Proof.
  intros [Hmap Hrecs]. unfold Refresh_body, record_of_entry.
  destruct (is_directory entry) eqn:Hdir; simpl.
  2:{ run_M. intros [= <- <-]. rewrite app_nil_r.
      split; [by split|]. split; [apply extends_nil|].
      split; [apply extends_nil|]. by intros ? [= <-]. }
  destruct (SimpleAtoi (filename entry)) as [upid|] eqn:Hatoi.
  2:{ run_M. intros [= <- <-]. rewrite app_nil_r.
      split; [by split|]. split; [apply extends_nil|].
      split; [apply extends_nil|]. by intros ? [= <-]. }
  run_M. rewrite Hmap.
  destruct (processes_map_ pl !! to_int32 upid) as [ptr|] eqn:Hptr.
  - destruct (processes_ (this_ s) !! ptr) as [q|] eqn:Hq.
    + destruct (Forall2_lookup_r _ _ _ _ _ Hrecs Hq) as (p & Hp & Hpq).
      rewrite Hp. intros [= <- <-]; simpl.
      assert (refreshed_in_place cpu_usage_map pl
                {| processes_ :=
                     <[ptr:=set_cpu_usage
                              (cpu_usage_at cpu_usage_map (pid q)) q]>
                       (processes_ (this_ s));
                   processes_map_ := processes_map_ (this_ s) |}) as Hnew.
      { split; [done|]. simpl.
        by eapply Forall2_cpu_refreshed_insert. }
      split; [done|]. split; [extends_by ltac:(exact Hnew)|].
      split; [apply extends_nil|].
      intros ? [= <-]. simpl.
      by rewrite (cpu_refreshed_set cpu_usage_map p q).
    + intros [= <- <-].
      split; [by split|]. split; [apply extends_nil|].
      split; [apply extends_nil|]. done.
  - destruct (FileToString sys (path_append (path entry) "comm"))
      as [name_read|e1] eqn:Hcomm; simpl.
    2:{ body_done Hdir Hatoi Hptr. }
    destruct (String.eqb (StripTrailingAsciiWhitespace name_read) EmptyString)
      eqn:Hname.
    { body_done Hdir Hatoi Hptr. }
    destruct (FileToString sys (path_append (path entry) "cmdline"))
      as [cmdline|e2] eqn:Hcmdline; simpl.
    2:{ body_done Hdir Hatoi Hptr. }
    destruct (Is64Bit sys (to_int32 upid)) as [b|e3] eqn:H64; simpl.
    + body_done Hdir Hatoi Hptr.
    + body_done Hdir Hatoi Hptr.
Qed.

Lemma Refresh_loop_spec sys cpu_usage_map pl entries :
  forall updated_processes s c s',
  refreshed_in_place cpu_usage_map pl (this_ s) ->
  Refresh_loop sys cpu_usage_map entries updated_processes s = (c, s') ->
  refreshed_in_place cpu_usage_map pl (this_ s') /\
  (exists hs, history s' = history s ++ hs /\
              Forall (refreshed_in_place cpu_usage_map pl) hs) /\
  (exists evs, trace s' = trace s ++ evs /\
               Forall (fun ev => exists entry,
                         entry ∈ entries /\ event_of_new_entry pl entry ev)
                 evs) /\
  (forall updated_processes',
     c = Returns updated_processes' ->
     updated_processes' =
       updated_processes ++
       omap (record_of_entry sys cpu_usage_map pl) entries).
Proof.
  induction entries as [|entry entries IH]; intros upd s c s' Hinv; simpl.
  - intros [= <- <-]. split; [done|]. split; [apply extends_nil|].
    split; [apply extends_nil|]. intros ? [= <-]. by rewrite app_nil_r.
  - unfold mbind, M_bind.
    destruct (Refresh_body sys cpu_usage_map entry upd s) as [c1 s1] eqn:Hbody.
    destruct (Refresh_body_spec _ _ _ _ _ _ _ _ Hinv Hbody)
      as (Hinv1 & (hs1 & Hh1 & Hhs1) & (evs1 & Ht1 & Hevs1) & Hupd1).
    assert (Hevs1' : Forall (fun ev => exists entry0,
                        entry0 ∈ entry :: entries /\
                        event_of_new_entry pl entry0 ev) evs1).
    { eapply Forall_impl; [exact Hevs1|]. intros ev Hev.
      exists entry. split; [left | done]. }
    destruct c1 as [upd1|ex].
    + intros Hloop.
      destruct (IH _ _ _ _ Hinv1 Hloop)
        as (Hinv2 & (hs2 & Hh2 & Hhs2) & (evs2 & Ht2 & Hevs2) & Hupd2).
      split; [done|].
      split.
      { exists (hs1 ++ hs2). rewrite Hh2, Hh1, (assoc_L (++)).
        split; [done|]. by apply Forall_app. }
      split.
      { exists (evs1 ++ evs2). rewrite Ht2, Ht1, (assoc_L (++)).
        split; [done|]. apply Forall_app. split; [done|].
        eapply Forall_impl; [exact Hevs2|]. intros ev (e0 & Hin & Hev).
        exists e0. split; [by right | done]. }
      intros upd' ->. rewrite (Hupd2 _ eq_refl), (Hupd1 _ eq_refl).
      rewrite <- (assoc_L (++)). f_equal.
      by destruct (record_of_entry sys cpu_usage_map pl entry).
    + intros [= <- <-]. split; [done|].
      split; [by exists hs1|]. split; [by exists evs1|]. done.
Qed.

Lemma index_loop_spec processes :
  forall i s,
  exists index hs,
    index_loop i processes s =
      (Returns tt,
       mkMachine (mkProcessList (processes_ (this_ s)) index) (trace s)
         (history s ++ hs)) /\
    Forall (fun h => processes_ h = processes_ (this_ s)) hs /\
    (forall k ptr,
       index !! k = Some ptr ->
       processes_map_ (this_ s) !! k = Some ptr \/
       exists n process,
         processes !! n = Some process /\ pid process = k /\
         ptr = (i + n)%nat) /\
    (forall k, is_Some (processes_map_ (this_ s) !! k) -> is_Some (index !! k)) /\
    (forall process, process ∈ processes -> is_Some (index !! pid process)).
Proof.
  induction processes as [|process processes IH]; intros i s; simpl.
  - exists (processes_map_ (this_ s)), []. rewrite app_nil_r.
    destruct s as [[ps ix] tr hi]; simpl.
    split; [done|]. split; [done|]. split; [by left|]. split; [done|].
    intros p Hp. by apply elem_of_nil in Hp.
  - run_M.
    destruct (IH (S i)
                (mkMachine
                   (mkProcessList (processes_ (this_ s))
                      (<[pid process:=i]> (processes_map_ (this_ s))))
                   (trace s)
                   (history s ++
                    [mkProcessList (processes_ (this_ s))
                       (<[pid process:=i]> (processes_map_ (this_ s)))])))
      as (index & hs & Hrun & Hhs & Hsound & Hkeep & Hcover).
    simpl in *. run_M.
    exists index, (mkProcessList (processes_ (this_ s))
                     (<[pid process:=i]> (processes_map_ (this_ s))) :: hs).
    split.
    { rewrite Hrun. by rewrite <- (assoc_L (++)). }
    split; [by constructor|].
    split.
    { intros k ptr Hk. destruct (Hsound k ptr Hk) as [Hold|(n & q & Hn & Hq & ->)].
      - destruct (decide (pid process = k)) as [<-|Hne].
        + rewrite lookup_insert_eq in Hold. injection Hold as <-.
          right. exists 0%nat, process. split; [done|]. split; [done|]. lia.
        + rewrite lookup_insert_ne in Hold by done. by left.
      - right. exists (S n), q. split; [done|]. split; [done|]. lia. }
    split.
    { intros k Hk. apply Hkeep.
      destruct (decide (pid process = k)) as [<-|Hne].
      - rewrite lookup_insert_eq. by eexists.
      - by rewrite lookup_insert_ne. }
    intros q [->|Hq]%elem_of_cons.
    + apply Hkeep. rewrite lookup_insert_eq. by eexists.
    + by apply Hcover.
Qed.

Lemma run_Refresh_failure sys pl e :
  GetCpuUtilization sys = failure e ->
  run_Refresh sys pl =
    (Returns (failure
                ("Unable to retrieve cpu usage of processes: " +:+ message e)),
     start pl).
Proof. intros H. unfold run_Refresh, Refresh. rewrite H. reflexivity. Qed.

Lemma run_Refresh_scanned sys pl cpu_usage_map c m :
  GetCpuUtilization sys = success cpu_usage_map ->
  run_Refresh sys pl = (c, m) ->
  Forall (fun ev => exists entry,
            entry ∈ proc_entries sys /\ event_of_new_entry pl entry ev)
    (trace m) /\
  match c with
  | Throws _ =>
      refreshed_in_place cpu_usage_map pl (this_ m) /\
      Forall (refreshed_in_place cpu_usage_map pl) (history m)
  | Returns r =>
      r = success tt /\
      processes_ (this_ m) =
        omap (record_of_entry sys cpu_usage_map pl) (proc_entries sys) /\
      index_sound (this_ m) /\
      (forall process,
         process ∈ processes_ (this_ m) ->
         is_Some (processes_map_ (this_ m) !! pid process)) /\
      Forall (fun h => refreshed_in_place cpu_usage_map pl h \/
                       processes_ h = processes_ (this_ m)) (history m)
  end.
Proof.
  intros Hcpu. unfold run_Refresh, Refresh. rewrite Hcpu. simpl.
  unfold mbind at 1 2, M_bind at 1 2, lift at 1. simpl.
  destruct (Refresh_loop sys cpu_usage_map (proc_entries sys) [] (start pl))
    as [c1 s1] eqn:Hloop.
  destruct (Refresh_loop_spec sys cpu_usage_map pl (proc_entries sys) []
              (start pl) c1 s1 (refreshed_in_place_refl cpu_usage_map pl)
              Hloop)
    as (Hinv & (hs & Hh & Hhs) & (evs & Ht & Hevs) & Hupd).
  simpl in Hh, Ht. subst.
  destruct c1 as [upd|ex].
  - specialize (Hupd _ eq_refl). simpl in Hupd. run_M.
    destruct (index_loop_spec upd 0
                (mkMachine (mkProcessList upd ∅) (trace s1)
                   ((history s1 ++ [mkProcessList upd (processes_map_ (this_ s1))])
                    ++ [mkProcessList upd ∅])))
      as (index & hs2 & Hrun & Hhs2 & Hsound & _ & Hcover).
    simpl in *. rewrite Hrun. intros [= <- <-]. simpl.
    split; [done|]. split; [done|]. split; [done|].
    split.
    { intros k ptr Hk. simpl in *.
      destruct (Hsound k ptr Hk) as [Hold|(n & q & Hn & Hq & ->)].
      - by rewrite lookup_empty in Hold.
      - exists q. by split. }
    split; [done|].
    repeat (apply Forall_app; split).
    + eapply Forall_impl; [exact Hhs|]. intros h Hr. by left.
    + apply Forall_cons_2; [by right | apply Forall_nil_2].
    + apply Forall_cons_2; [by right | apply Forall_nil_2].
    + eapply Forall_impl; [exact Hhs2|]. intros h Hr. by right.
  - intros [= <- <-]. done.
Qed.

Lemma refreshed_in_place_sound cpu_usage_map pl pl' :
  refreshed_in_place cpu_usage_map pl pl' ->
  index_sound pl -> index_sound pl'.
Proof.
  intros [Hmap Hrecs] Hsound k ptr Hk. rewrite Hmap in Hk.
  destruct (Hsound k ptr Hk) as (p & Hp & Hpid).
  destruct (Forall2_lookup_l _ _ _ _ _ Hrecs Hp) as (q & Hq & Hpq).
  exists q. split; [done|].
  by rewrite (cpu_refreshed_pid _ _ _ Hpq).
Qed.

Lemma refreshed_in_place_same cpu_usage_map pl pl' :
  refreshed_in_place cpu_usage_map pl pl' ->
  Forall2 same_but_cpu_usage (processes_ pl) (processes_ pl').
Proof.
  intros [_ Hrecs]. eapply Forall2_impl; [exact Hrecs|].
  apply cpu_refreshed_same.
Qed.

Lemma run_Refresh_index_sound sys pl :
  index_sound pl -> index_sound (this_ (run_Refresh sys pl).2).
Proof.
  intros Hsound.
  destruct (GetCpuUtilization sys) as [cpu_usage_map|e] eqn:Hcpu.
  - destruct (run_Refresh sys pl) as [c m] eqn:Hrun.
    destruct (run_Refresh_scanned _ _ _ _ _ Hcpu Hrun) as [_ H].
    destruct c as [r|ex]; simpl.
    + by destruct H as (_ & _ & H & _).
    + destruct H as [H _]. by eapply refreshed_in_place_sound.
  - by rewrite (run_Refresh_failure _ _ _ Hcpu).
Qed.

Lemma reachable_index_sound pl : reachable pl -> index_sound pl.
Proof.
  induction 1 as [|sys pl _ IH].
  - intros k ptr Hk. simpl in Hk. by rewrite lookup_empty in Hk.
  - by apply run_Refresh_index_sound.
Qed.

(** Where a record that a turn appends comes from. *)
Lemma record_of_entry_Some sys cpu_usage_map pl entry q :
  record_of_entry sys cpu_usage_map pl entry = Some q ->
  is_directory entry = true /\
  exists upid,
    SimpleAtoi (filename entry) = Some upid /\
    ((exists ptr process,
        processes_map_ pl !! to_int32 upid = Some ptr /\
        processes_ pl !! ptr = Some process /\
        q = set_cpu_usage (cpu_usage_at cpu_usage_map (pid process)) process)
     \/
     (processes_map_ pl !! to_int32 upid = None /\
      pid q = to_int32 upid)).
Proof.
  unfold record_of_entry.
  destruct (is_directory entry); simpl; [|done]. split; [done|].
  destruct (SimpleAtoi (filename entry)) as [upid|]; [|done].
  exists upid. split; [done|].
  destruct (processes_map_ pl !! to_int32 upid) as [ptr|] eqn:Hptr.
  - destruct (processes_ pl !! ptr) as [process|] eqn:Hp; [|done].
    injection H as <-. left. by exists ptr, process.
  - right. split; [done|]. repeat case_match; simplify_eq. done.
Qed.

Lemma record_of_entry_known sys cpu_usage_map pl entry upid ptr process :
  is_directory entry = true ->
  SimpleAtoi (filename entry) = Some upid ->
  processes_map_ pl !! to_int32 upid = Some ptr ->
  processes_ pl !! ptr = Some process ->
  record_of_entry sys cpu_usage_map pl entry =
    Some (set_cpu_usage (cpu_usage_at cpu_usage_map (pid process)) process).
Proof.
  intros Hdir Hatoi Hptr Hp. unfold record_of_entry.
  by rewrite Hdir, Hatoi, Hptr, Hp.
Qed.

Lemma record_of_entry_new sys cpu_usage_map pl entry upid name_read cmdline b :
  is_directory entry = true ->
  SimpleAtoi (filename entry) = Some upid ->
  processes_map_ pl !! to_int32 upid = None ->
  FileToString sys (path_append (path entry) "comm") = success name_read ->
  StripTrailingAsciiWhitespace name_read <> EmptyString ->
  FileToString sys (path_append (path entry) "cmdline") = success cmdline ->
  Is64Bit sys (to_int32 upid) = success b ->
  record_of_entry sys cpu_usage_map pl entry =
    Some (mkProcessInfo (to_int32 upid)
            (StripTrailingAsciiWhitespace name_read)
            (cpu_usage_at cpu_usage_map (to_int32 upid))
            (up_to_nul cmdline) (replace "000" " " cmdline) b).
Proof.
  intros Hdir Hatoi Hptr Hcomm Hname Hcmdline H64. unfold record_of_entry.
  rewrite Hdir, Hatoi, Hptr, Hcomm, Hcmdline, H64. simpl.
  by apply String.eqb_neq in Hname as ->.
Qed.

Lemma elem_of_omap_record {A B} (f : A -> option B) (l : list A) (y : B) :
  y ∈ omap f l <-> exists x, x ∈ l /\ f x = Some y.
Proof. apply list_elem_of_omap. Qed.

(** ** Paths of the files of an entry *)

Lemma list_ascii_of_string_append (s t : string) :
  list_ascii_of_string (s +:+ t)
  = list_ascii_of_string s ++ list_ascii_of_string t.
Proof. induction s as [|c s IH]; simpl; [done | by rewrite IH]. Qed.

Lemma list_ascii_of_string_inj (s t : string) :
  list_ascii_of_string s = list_ascii_of_string t -> s = t.
Proof.
  intros H. rewrite <- (string_of_list_ascii_of_string s),
    <- (string_of_list_ascii_of_string t). by rewrite H.
Qed.

Lemma path_append_inj (e e' : directory_entry) (leaf : string) :
  path_append (path e) leaf = path_append (path e') leaf ->
  filename e = filename e'.
Proof.
  unfold path_append, path. intros H.
  apply (f_equal list_ascii_of_string) in H.
  rewrite !list_ascii_of_string_append in H.
  apply app_inv_tail, app_inv_head in H.
  by apply list_ascii_of_string_inj.
Qed.

Lemma path_append_comm_cmdline (e e' : directory_entry) :
  path_append (path e) "comm" <> path_append (path e') "cmdline".
Proof.
  unfold path_append, path. intros H.
  apply (f_equal list_ascii_of_string) in H.
  rewrite !list_ascii_of_string_append in H.
  change (list_ascii_of_string "comm")
    with (list_ascii_of_string "com" ++ ["m"%char]) in H.
  change (list_ascii_of_string "cmdline")
    with (list_ascii_of_string "cmdlin" ++ ["e"%char]) in H.
  rewrite !(assoc_L (++)) in H.
  apply app_inj_tail in H as [_ H]. discriminate H.
Qed.

(** ** The claims about [ProcessList::Refresh] *)

Import Examples.

(** C1. When the CPU utilization cannot be read, [Refresh] returns a
    failure whose text carries the message of the error, and the object is
    the one before the call. Whenever [Refresh] returns a failure the
    object is unchanged, and whenever it does not return success the index
    is the one before the call and [processes_] holds the records of
    before, up to their [cpu_usage]. *)
Theorem Refresh_failure_leaves_table (sys : System) (pl : ProcessList) :
  (forall e,
     GetCpuUtilization sys = failure e ->
     (run_Refresh sys pl).1 =
       Returns (failure ("Unable to retrieve cpu usage of processes: "
                         +:+ message e)) /\
     this_ (run_Refresh sys pl).2 = pl) /\
  (forall msg,
     (run_Refresh sys pl).1 = Returns (failure msg) ->
     this_ (run_Refresh sys pl).2 = pl) /\
  ((run_Refresh sys pl).1 <> Returns (success tt) ->
     processes_map_ (this_ (run_Refresh sys pl).2) = processes_map_ pl /\
     Forall2 same_but_cpu_usage (processes_ pl)
       (processes_ (this_ (run_Refresh sys pl).2))).
Proof.
  destruct (GetCpuUtilization sys) as [cpu_usage_map|e] eqn:Hcpu.
  - destruct (run_Refresh sys pl) as [c m] eqn:Hrun.
    destruct (run_Refresh_scanned _ _ _ _ _ Hcpu Hrun) as [_ H].
    split; [done|]. simpl. destruct c as [r|ex].
    + destruct H as [-> _]. split; [done|]. done.
    + destruct H as [H _]. split; [done|]. intros _.
      split; [apply H | by eapply refreshed_in_place_same].
  - rewrite (run_Refresh_failure _ _ _ Hcpu). simpl.
    split; [by intros ? [= <-]|]. split; [done|]. intros _.
    split; [done|]. apply Forall2_same_length_lookup_2; [done|].
    intros i p q Hp Hq. rewrite Hp in Hq. by injection Hq as <-.
Qed.

Lemma Refresh_failure_leaves_table_witness :
  (run_Refresh sys_cpu_down table_idle).1 =
    Returns (failure
               "Unable to retrieve cpu usage of processes: Permission denied")
  /\ this_ (run_Refresh sys_cpu_down table_idle).2 = table_idle.
Proof.
  exact (proj1 (Refresh_failure_leaves_table sys_cpu_down table_idle)
           (mk_error_code "Permission denied") eq_refl).
Defined.

(** What the turn of the loop does by design when [comm] cannot be read:
    one line is logged, nothing is appended, and the loop goes on. *)
Lemma Refresh_body_comm_unreadable sys cpu_usage_map entry upid e upd s :
  is_directory entry = true ->
  SimpleAtoi (filename entry) = Some upid ->
  processes_map_ (this_ s) !! to_int32 upid = None ->
  FileToString sys (path_append (path entry) "comm") = failure e ->
  Refresh_body sys cpu_usage_map entry upd s =
    (Returns upd,
     mkMachine (this_ s)
       (trace s ++
        [ReadFile (path_append (path entry) "comm");
         LogError "Failed to read %s: %s"
           [arg_string (path_append (path entry) "comm");
            arg_string (message e)]])
       (history s)).
Proof.
  intros Hdir Hatoi Hptr Hcomm. unfold Refresh_body.
  rewrite Hdir, Hatoi. run_M. rewrite Hptr, Hcomm. simpl.
  by rewrite <- (assoc_L (++)).
Qed.

(** The same when the bitness cannot be determined. *)
Lemma Refresh_body_Is64Bit_unknown sys cpu_usage_map entry upid name_read
    cmdline e upd s :
  is_directory entry = true ->
  SimpleAtoi (filename entry) = Some upid ->
  processes_map_ (this_ s) !! to_int32 upid = None ->
  FileToString sys (path_append (path entry) "comm") = success name_read ->
  StripTrailingAsciiWhitespace name_read <> EmptyString ->
  FileToString sys (path_append (path entry) "cmdline") = success cmdline ->
  Is64Bit sys (to_int32 upid) = failure e ->
  Refresh_body sys cpu_usage_map entry upd s =
    (Returns upd,
     mkMachine (this_ s)
       (trace s ++
        [ReadFile (path_append (path entry) "comm");
         ReadFile (path_append (path entry) "cmdline");
         QueryIs64Bit (to_int32 upid);
         LogError Is64Bit_error_format
           [arg_string (StripTrailingAsciiWhitespace name_read);
            arg_int upid; arg_string (message e)]])
       (history s)).
Proof.
  intros Hdir Hatoi Hptr Hcomm Hname Hcmdline H64. unfold Refresh_body.
  rewrite Hdir, Hatoi. run_M. rewrite Hptr, Hcomm. simpl.
  apply String.eqb_neq in Hname as ->. rewrite Hcmdline. simpl.
  rewrite H64. simpl. by rewrite <- !(assoc_L (++)).
Qed.

(** When [cmdline] cannot be read after [comm] could, the turn asks the
    result of reading [comm] for its error; that result holds a value, so
    the observer throws: nothing is logged and the loop is left. *)
Lemma Refresh_body_cmdline_unreadable sys cpu_usage_map entry upid name_read
    e upd s :
  is_directory entry = true ->
  SimpleAtoi (filename entry) = Some upid ->
  processes_map_ (this_ s) !! to_int32 upid = None ->
  FileToString sys (path_append (path entry) "comm") = success name_read ->
  StripTrailingAsciiWhitespace name_read <> EmptyString ->
  FileToString sys (path_append (path entry) "cmdline") = failure e ->
  Refresh_body sys cpu_usage_map entry upd s =
    (Throws (bad_result_access "no error"),
     mkMachine (this_ s)
       (trace s ++
        [ReadFile (path_append (path entry) "comm");
         ReadFile (path_append (path entry) "cmdline")])
       (history s)).
Proof.
  intros Hdir Hatoi Hptr Hcomm Hname Hcmdline. unfold Refresh_body.
  rewrite Hdir, Hatoi. run_M. rewrite Hptr, Hcomm. simpl.
  apply String.eqb_neq in Hname as ->. rewrite Hcmdline. simpl.
  by rewrite <- !(assoc_L (++)).
Qed.

(** C2, at the input on which the code and the claim part. On a machine
    where [/proc/1/comm] is readable and [/proc/1/cmdline] is not, a call
    of [Refresh] on a new object does not return: it throws
    [bad_result_access] after the two reads, logs nothing, never comes to
    the entry of pid 2, and leaves the object empty. *)
Theorem Refresh_cmdline_unreadable_throws :
  (run_Refresh sys_cmdline_gone ProcessList_new).1 =
    Throws (bad_result_access "no error") /\
  trace (run_Refresh sys_cmdline_gone ProcessList_new).2 =
    [ReadFile "/proc/1/comm"; ReadFile "/proc/1/cmdline"] /\
  processes_ (this_ (run_Refresh sys_cmdline_gone ProcessList_new).2) = [].
Proof. vm_compute. done. Qed.

Lemma ReadFile_inj (file file' : string) :
  ReadFile file = ReadFile file' -> file = file'.
Proof. by intros [=]. Qed.

(** C3. A directory entry whose pid the index knows makes [Refresh] append
    the indexed record with [cpu_usage] replaced by the value of the
    aggregate under the record's pid (zero when the aggregate has none) and
    every other field as it was; the call reads neither [comm] nor
    [cmdline] of that entry and does not ask for the bitness of that pid.
    When the index is sound, it is the only record of the new table with
    that pid. *)
Theorem Refresh_keeps_known_record (sys : System) (pl : ProcessList)
    (cpu_usage_map : gmap Z double) (entry : directory_entry) (upid : Z)
    (ptr : nat) (process : ProcessInfo) :
  GetCpuUtilization sys = success cpu_usage_map ->
  (run_Refresh sys pl).1 = Returns (success tt) ->
  entry ∈ proc_entries sys ->
  is_directory entry = true ->
  SimpleAtoi (filename entry) = Some upid ->
  processes_map_ pl !! to_int32 upid = Some ptr ->
  processes_ pl !! ptr = Some process ->
  let process' :=
    mkProcessInfo (pid process) (name process)
      (cpu_usage_at cpu_usage_map (pid process)) (full_path process)
      (command_line process) (is_64_bit process) in
  let m := (run_Refresh sys pl).2 in
  (process' ∈ processes_ (this_ m)) /\
  (ReadFile (path_append (path entry) "comm") ∉ trace m) /\
  (ReadFile (path_append (path entry) "cmdline") ∉ trace m) /\
  (QueryIs64Bit (to_int32 upid) ∉ trace m) /\
  (index_sound pl ->
   forall q, q ∈ processes_ (this_ m) -> pid q = to_int32 upid ->
             q = process').
Proof.
  intros Hcpu Hok Hin Hdir Hatoi Hptr Hp process' m. subst m.
  destruct (run_Refresh sys pl) as [c m] eqn:Hrun. simpl in *. subst c.
  destruct (run_Refresh_scanned _ _ _ _ _ Hcpu Hrun)
    as (Htrace & _ & Htable & _).
  assert (Hnot : forall ev, ev ∈ trace m ->
            forall entry' upid',
              event_of_new_entry pl entry' ev ->
              SimpleAtoi (filename entry') = Some upid' ->
              to_int32 upid' <> to_int32 upid).
  { intros ev _ entry' upid' (_ & u & Hu & Hnone & _) Hu' Heq.
    rewrite Hu in Hu'. injection Hu' as ->. congruence. }
  assert (Hfile : forall leaf,
            (leaf = "comm" \/ leaf = "cmdline")%string ->
            ReadFile (path_append (path entry) leaf) ∉ trace m).
  { intros leaf Hleaf Hev.
    rewrite Forall_forall in Htrace.
    destruct (Htrace _ Hev) as (entry' & _ & Hdir' & u & Hu & Hnone & Hcase).
    assert (filename entry' = filename entry) as Hname.
    { destruct Hcase as [H|[H|[[=]|(? & ? & [=])]]];
        apply ReadFile_inj in H; destruct Hleaf as [-> | ->].
      - symmetry. by apply path_append_inj in H.
      - symmetry in H. by apply path_append_comm_cmdline in H.
      - by apply path_append_comm_cmdline in H.
      - symmetry. by apply path_append_inj in H. }
    rewrite Hname, Hatoi in Hu. injection Hu as <-. congruence. }
  split.
  { rewrite Htable. apply list_elem_of_omap. exists entry. split; [done|].
    by erewrite record_of_entry_known. }
  split; [apply Hfile; by left|]. split; [apply Hfile; by right|].
  split.
  { intros Hev. rewrite Forall_forall in Htrace.
    destruct (Htrace _ Hev) as (entry' & _ & Hdir' & u & Hu & Hnone & Hcase).
    destruct Hcase as [[=]|[[=]|[[= H]|(? & ? & [=])]]]. congruence. }
  intros Hsound q Hq Hpid. rewrite Htable in Hq.
  apply list_elem_of_omap in Hq as (entry' & _ & Hrec).
  apply record_of_entry_Some in Hrec
    as (_ & u & Hu & [(ptr' & p' & Hptr' & Hp' & ->)|[Hnone Hq]]).
  - simpl in Hpid.
    destruct (Hsound _ _ Hptr') as (p'' & Hp'' & Hpid'').
    rewrite Hp' in Hp''. injection Hp'' as <-.
    rewrite <- Hpid'', Hpid, Hptr in Hptr'. injection Hptr' as <-.
    rewrite Hp in Hp'. by injection Hp' as <-.
  - rewrite Hpid in Hq. rewrite <- Hq in Hnone. congruence.
Qed.

Lemma Refresh_keeps_known_record_witness :
  (mkProcessInfo 1 "init" double_50 "/sbin/init" "/sbin/init splash " true
     ∈ processes_ (this_ (run_Refresh sys_busy table_idle).2)) /\
  (ReadFile "/proc/1/comm" ∉ trace (run_Refresh sys_busy table_idle).2).
Proof.
  pose proof (Refresh_keeps_known_record sys_busy table_idle
                (<[1 := double_50]> (<[2 := double_12_5]> ∅))
                (dir "1") 1 0%nat
                (mkProcessInfo 1 "init" double_zero "/sbin/init"
                   "/sbin/init splash " true)
                eq_refl) as H.
  simpl in H.
  destruct H as (H1 & H2 & _).
  - vm_compute. reflexivity.
  - left.
  - reflexivity.
  - reflexivity.
  - vm_compute. reflexivity.
  - vm_compute. reflexivity.
  - split; [exact H1 | exact H2].
Defined.

(** C4. After a call of [Refresh] that returns success on an object a
    program can hold: every record of the new table has the pid of a
    directory entry of the scan whose name parses, so a pid that the scan
    did not meet is gone; a pid the index knew and the scan met again has a
    record, and so has a new pid whose files could be read; the new index
    files every pid of the new table, and each of its pointers points to a
    record of the new table with the pid it is filed under. *)
Theorem Refresh_snapshot_is_the_scan (sys : System) (pl : ProcessList) :
  reachable pl ->
  (run_Refresh sys pl).1 = Returns (success tt) ->
  let pl' := this_ (run_Refresh sys pl).2 in
  (forall q, q ∈ processes_ pl' ->
     exists entry upid,
       entry ∈ proc_entries sys /\ is_directory entry = true /\
       SimpleAtoi (filename entry) = Some upid /\ pid q = to_int32 upid) /\
  (forall entry upid,
     entry ∈ proc_entries sys -> is_directory entry = true ->
     SimpleAtoi (filename entry) = Some upid ->
     is_Some (processes_map_ pl !! to_int32 upid) ->
     exists q, q ∈ processes_ pl' /\ pid q = to_int32 upid) /\
  (forall entry upid name_read cmdline b,
     entry ∈ proc_entries sys -> is_directory entry = true ->
     SimpleAtoi (filename entry) = Some upid ->
     processes_map_ pl !! to_int32 upid = None ->
     FileToString sys (path_append (path entry) "comm") = success name_read ->
     StripTrailingAsciiWhitespace name_read <> EmptyString ->
     FileToString sys (path_append (path entry) "cmdline") = success cmdline ->
     Is64Bit sys (to_int32 upid) = success b ->
     exists q, q ∈ processes_ pl' /\ pid q = to_int32 upid) /\
  index_sound pl' /\
  (forall q, q ∈ processes_ pl' -> is_Some (processes_map_ pl' !! pid q)).
Proof.
  intros Hreach Hok pl'. subst pl'.
  pose proof (reachable_index_sound _ Hreach) as Hsound.
  destruct (GetCpuUtilization sys) as [cpu_usage_map|e] eqn:Hcpu.
  2:{ rewrite (run_Refresh_failure _ _ _ Hcpu) in Hok. discriminate Hok. }
  destruct (run_Refresh sys pl) as [c m] eqn:Hrun. simpl in *. subst c.
  destruct (run_Refresh_scanned _ _ _ _ _ Hcpu Hrun)
    as (_ & _ & Htable & Hsound' & Hcover & _).
  split; [|split; [|split; [|by split]]].
  - intros q Hq. rewrite Htable in Hq.
    apply list_elem_of_omap in Hq as (entry & Hin & Hrec).
    apply record_of_entry_Some in Hrec
      as (Hdir & u & Hu & [(ptr & p & Hptr & Hp & ->)|[_ Hq]]).
    + exists entry, u. repeat split; try done. simpl.
      destruct (Hsound _ _ Hptr) as (p' & Hp' & Hpid).
      rewrite Hp in Hp'. by injection Hp' as <-.
    + by exists entry, u.
  - intros entry upid Hin Hdir Hatoi [ptr Hptr].
    destruct (Hsound _ _ Hptr) as (p & Hp & Hpid).
    exists (set_cpu_usage (cpu_usage_at cpu_usage_map (pid p)) p).
    split; [|done]. rewrite Htable. apply list_elem_of_omap.
    exists entry. split; [done|]. by apply record_of_entry_known with upid ptr.
  - intros entry upid name_read cmdline b Hin Hdir Hatoi Hptr Hcomm Hname
      Hcmdline H64.
    eexists. split.
    + rewrite Htable. apply list_elem_of_omap. exists entry. split; [done|].
      by eapply record_of_entry_new.
    + done.
Qed.

Lemma reachable_table_idle : reachable table_idle.
Proof. apply reachable_Refresh, reachable_new. Qed.

Lemma Refresh_snapshot_is_the_scan_witness :
  index_sound (this_ (run_Refresh sys_busy table_idle).2).
Proof.
  apply (Refresh_snapshot_is_the_scan sys_busy table_idle).
  - apply reachable_Refresh, reachable_new.
  - vm_compute. reflexivity.
Defined.

Lemma run_Refresh_history sys pl cpu_usage_map m :
  GetCpuUtilization sys = success cpu_usage_map ->
  run_Refresh sys pl = (Returns (success tt), m) ->
  exists during after,
    history m = during ++ after /\
    Forall (refreshed_in_place cpu_usage_map pl) during /\
    after <> [] /\
    Forall (fun h => processes_ h = processes_ (this_ m)) after.
Proof.
  intros Hcpu. unfold run_Refresh, Refresh. rewrite Hcpu. simpl.
  unfold mbind at 1 2, M_bind at 1 2, lift at 1. simpl.
  destruct (Refresh_loop sys cpu_usage_map (proc_entries sys) [] (start pl))
    as [c1 s1] eqn:Hloop.
  destruct (Refresh_loop_spec sys cpu_usage_map pl (proc_entries sys) []
              (start pl) c1 s1 (refreshed_in_place_refl cpu_usage_map pl)
              Hloop)
    as (_ & (hs & Hh & Hhs) & _).
  simpl in Hh. subst hs.
  destruct c1 as [upd|ex]; [|by intros [=]].
  run_M.
  destruct (index_loop_spec upd 0
              (mkMachine (mkProcessList upd ∅) (trace s1)
                 ((history s1 ++
                   [mkProcessList upd (processes_map_ (this_ s1))])
                  ++ [mkProcessList upd ∅])))
    as (index & hs2 & Hrun & Hhs2 & _).
  simpl in *. rewrite Hrun. intros [= <-]. simpl.
  exists (history s1),
    ([mkProcessList upd (processes_map_ (this_ s1))] ++
     [mkProcessList upd ∅] ++ hs2).
  split; [by rewrite <- !(assoc_L (++))|]. split; [done|].
  split; [done|].
  apply Forall_cons_2; [done|]. apply Forall_cons_2; [done|]. done.
Qed.

(** C5, as the code has it. Between the writes of a call of [Refresh]
    that returns success, [processes_] holds first the table of before
    the call, record by record and in its order, where each record is
    either unchanged or has its [cpu_usage], and nothing else, replaced by
    the value of the aggregate under its pid; then, from the one
    assignment after the scan on, the complete new table. So every table
    met between two writes is the complete new table or the prior table
    with some records refreshed in that way. *)
Theorem Refresh_visible_tables (sys : System) (pl : ProcessList)
    (cpu_usage_map : gmap Z double) :
  GetCpuUtilization sys = success cpu_usage_map ->
  (run_Refresh sys pl).1 = Returns (success tt) ->
  let new := processes_ (this_ (run_Refresh sys pl).2) in
  (forall t, t ∈ visible_tables sys pl ->
     t = new \/
     Forall2 (cpu_refreshed cpu_usage_map) (processes_ pl) t) /\
  (exists during after,
     visible_tables sys pl = during ++ after /\
     Forall (Forall2 (cpu_refreshed cpu_usage_map) (processes_ pl)) during /\
     after <> [] /\
     Forall (fun t => t = new) after).
Proof.
  intros Hcpu Hok new. subst new. unfold visible_tables.
  destruct (run_Refresh sys pl) as [c m] eqn:Hrun. simpl in *. subst c.
  destruct (run_Refresh_history _ _ _ _ Hcpu Hrun)
    as (during & after & Hh & Hduring & Hne & Hafter).
  assert (Hold : Forall2 (cpu_refreshed cpu_usage_map) (processes_ pl)
                   (processes_ pl))
    by apply (refreshed_in_place_refl cpu_usage_map pl).
  assert (Hduring' : Forall (Forall2 (cpu_refreshed cpu_usage_map)
                               (processes_ pl)) (processes_ <$> during)).
  { apply Forall_fmap. eapply Forall_impl; [exact Hduring|].
    by intros h [_ H]. }
  assert (Hafter' : Forall (fun t => t = processes_ (this_ m))
                      (processes_ <$> after)).
  { apply Forall_fmap. eapply Forall_impl; [exact Hafter|]. by intros h H. }
  rewrite Hh, fmap_app. split.
  - intros t [->|Ht]%elem_of_cons; [by right|].
    apply elem_of_app in Ht as [Ht|Ht].
    + right. rewrite Forall_forall in Hduring'. by apply Hduring'.
    + left. rewrite Forall_forall in Hafter'. by apply Hafter'.
  - exists (processes_ pl :: (processes_ <$> during)), (processes_ <$> after).
    split; [done|]. split; [by apply Forall_cons_2|]. split; [|done].
    destruct after; [done | discriminate].
Qed.

Lemma Refresh_visible_tables_witness :
  let t :=
    [mkProcessInfo 1 "init" double_50 "/sbin/init" "/sbin/init splash " true;
     mkProcessInfo 2 "sh" double_zero "/bin/sh" "/bin/sh " true] in
  t = processes_ (this_ (run_Refresh sys_busy table_idle).2) \/
  Forall2 (cpu_refreshed (<[1 := double_50]> (<[2 := double_12_5]> ∅)))
    (processes_ table_idle) t.
Proof.
  apply (Refresh_visible_tables sys_busy table_idle
           (<[1 := double_50]> (<[2 := double_12_5]> ∅))).
  - reflexivity.
  - vm_compute. reflexivity.
  - vm_compute. right. left.
Defined.

(** C5, refuted as stated. On the busy machine, a call of [Refresh] on the
    object left by a first call returns success, and on the way
    [processes_] holds a table that is neither the one before the call nor
    the one after it: [init] has its new [cpu_usage] and [sh] still has
    the old one. *)
Lemma Refresh_shows_a_partial_table :
  reachable table_idle /\
  (run_Refresh sys_busy table_idle).1 = Returns (success tt) /\
  exists t,
    t ∈ visible_tables sys_busy table_idle /\
    t <> processes_ table_idle /\
    t <> processes_ (this_ (run_Refresh sys_busy table_idle).2).
Proof.
  split; [apply reachable_table_idle|]. split; [by vm_compute|].
  exists [mkProcessInfo 1 "init" double_50 "/sbin/init" "/sbin/init splash "
            true;
          mkProcessInfo 2 "sh" double_zero "/bin/sh" "/bin/sh " true].
  split; [|split].
  - vm_compute. right. left.
  - vm_compute. discriminate.
  - vm_compute. discriminate.
Qed.

Lemma uint32_max_nonneg : 0 <= 0 <= uint32_max.
Proof. unfold uint32_max. lia. Qed.

Lemma safe_parse_positive_int_spec (s : string) :
  forall acc v,
    0 <= acc <= uint32_max ->
    safe_parse_positive_int acc s = Some v ->
    acc <= v <= uint32_max /\ all_digits s = true.
Proof.
  induction s as [|c s IH]; intros acc v Hacc; simpl.
  - intros [= <-]. split; [lia | done].
  - destruct (ascii_isdigit c) eqn:Hc; [|done].
    destruct (acc * 10 + digit_value c <=? uint32_max) eqn:Hle; [|done].
    intros Hv. apply Z.leb_le in Hle.
    assert (0 <= digit_value c) as Hd.
    { unfold ascii_isdigit in Hc. unfold digit_value.
      apply andb_true_iff in Hc as [Hc _]. apply Nat.leb_le in Hc.
      clear -Hc. set (n := nat_of_ascii c) in *. clearbody n. lia. }
    assert (0 <= acc * 10 + digit_value c <= uint32_max) as Hacc' by lia.
    destruct (IH _ _ Hacc' Hv) as [Hr Hs].
    split; [lia | done].
Qed.

(** What [SimpleAtoi] accepts: after white space is stripped on both sides
    and one plus sign is dropped, a non-empty string of decimal digits; the
    value is that of a [uint32_t]. *)
Lemma SimpleAtoi_Some (str : string) (v : Z) :
  SimpleAtoi str = Some v ->
  0 <= v <= uint32_max /\
  exists digits,
    digits <> EmptyString /\ all_digits digits = true /\
    let stripped :=
      StripTrailingAsciiWhitespace (StripLeadingAsciiWhitespace str) in
    (stripped = digits \/ stripped = String "+" digits).
Proof.
  unfold SimpleAtoi.
  destruct (StripTrailingAsciiWhitespace (StripLeadingAsciiWhitespace str))
    as [|c rest]; [done|].
  destruct (Ascii.eqb c "-"); [done|].
  destruct (Ascii.eqb_spec c "+") as [->|Hplus].
  - destruct rest as [|d rest]; [done|]. intros Hv.
    destruct (safe_parse_positive_int_spec _ 0 v uint32_max_nonneg Hv)
      as [Hr Hd].
    split; [done|]. exists (String d rest). split; [done|]. split; [done|].
    by right.
  - intros Hv.
    destruct (safe_parse_positive_int_spec _ 0 v uint32_max_nonneg Hv)
      as [Hr Hd].
    split; [done|]. exists (String c rest). split; [done|]. split; [done|].
    by left.
Qed.

Lemma Refresh_body_skip sys cpu_usage_map entry upd s :
  is_pid_directory entry = false ->
  Refresh_body sys cpu_usage_map entry upd s = (Returns upd, s).
Proof.
  unfold is_pid_directory, Refresh_body. intros H.
  destruct (is_directory entry); simpl in *; [|done].
  by destruct (SimpleAtoi (filename entry)).
Qed.

Lemma Refresh_loop_filter sys cpu_usage_map entries sys' :
  FileToString sys' = FileToString sys -> Is64Bit sys' = Is64Bit sys ->
  forall upd s,
    Refresh_loop sys cpu_usage_map entries upd s =
    Refresh_loop sys' cpu_usage_map (List.filter is_pid_directory entries)
      upd s.
Proof.
  intros Hfiles H64.
  assert (Hbody : forall entry upd s,
            Refresh_body sys' cpu_usage_map entry upd s
            = Refresh_body sys cpu_usage_map entry upd s).
  { intros. unfold Refresh_body, call_FileToString, call_Is64Bit.
    by rewrite Hfiles, H64. }
  induction entries as [|entry entries IH]; intros upd s; simpl; [done|].
  destruct (is_pid_directory entry) eqn:Hpid; simpl.
  - unfold mbind, M_bind. rewrite Hbody.
    destruct (Refresh_body sys cpu_usage_map entry upd s) as [[upd1|ex] s1];
      [apply IH | done].
  - unfold mbind, M_bind. rewrite (Refresh_body_skip _ _ _ _ _ Hpid).
    apply IH.
Qed.

(** C7. A turn of the loop on an entry that is not a directory, or whose
    name [SimpleAtoi] refuses, changes nothing and has no effect, and the
    call as a whole is the call on the listing without such entries; the
    names of the entries that are left are, white space and one plus sign
    apart, non-empty strings of decimal digits with the value of a
    [uint32_t]. *)
Theorem Refresh_skips_non_pid_entries (sys : System) (pl : ProcessList) :
  (forall cpu_usage_map entry upd s,
     is_directory entry = false \/ SimpleAtoi (filename entry) = None ->
     Refresh_body sys cpu_usage_map entry upd s = (Returns upd, s)) /\
  run_Refresh sys pl =
    run_Refresh
      (with_proc_entries sys
         (List.filter is_pid_directory (proc_entries sys))) pl /\
  (forall entry,
     is_pid_directory entry = true ->
     is_directory entry = true /\
     exists upid digits,
       SimpleAtoi (filename entry) = Some upid /\
       0 <= upid <= uint32_max /\
       digits <> EmptyString /\ all_digits digits = true /\
       let stripped :=
         StripTrailingAsciiWhitespace
           (StripLeadingAsciiWhitespace (filename entry)) in
       (stripped = digits \/ stripped = String "+" digits)).
Proof.
  split; [|split].
  - intros cpu_usage_map entry upd s H. apply Refresh_body_skip.
    unfold is_pid_directory. destruct H as [-> | ->]; [done|].
    apply andb_false_r.
  - unfold run_Refresh, Refresh. simpl.
    destruct (GetCpuUtilization sys) as [cpu_usage_map|e]; simpl; [|done].
    unfold mbind at 1 2, M_bind at 1 2, lift at 1. simpl.
    rewrite (Refresh_loop_filter sys cpu_usage_map (proc_entries sys)
               (with_proc_entries sys
                  (List.filter is_pid_directory (proc_entries sys)))
               eq_refl eq_refl).
    reflexivity.
  - intros entry H. unfold is_pid_directory in H.
    apply andb_true_iff in H as [Hdir H]. split; [done|].
    destruct (SimpleAtoi (filename entry)) as [upid|] eqn:Hatoi; [|done].
    destruct (SimpleAtoi_Some _ _ Hatoi) as (Hr & digits & Hne & Hd & Hs).
    by exists upid, digits.
Qed.

Lemma Refresh_skips_non_pid_entries_witness :
  Refresh_body sys_idle ∅ (dir "self") [] (start ProcessList_new)
    = (Returns [], start ProcessList_new) /\
  Refresh_body sys_idle ∅ (regular_file "7") [] (start ProcessList_new)
    = (Returns [], start ProcessList_new).
Proof.
  split.
  - apply (proj1 (Refresh_skips_non_pid_entries sys_idle ProcessList_new)).
    right. reflexivity.
  - apply (proj1 (Refresh_skips_non_pid_entries sys_idle ProcessList_new)).
    left. reflexivity.
Defined.

(** * Further properties *)

(** ** [Function]: selection *)

Section SelectionFacts.

Context {FunctionStats HeaderMembers : Type}.
Abbreviation Function' := (Function FunctionStats HeaderMembers).
Abbreviation Capture' := (Capture FunctionStats HeaderMembers).
Variable GetVirtualAddress : Function' -> Z.

Lemma Capture_eq (c c' : Capture') :
  GSelectedFunctionsMap c = GSelectedFunctionsMap c' -> c = c'.
Proof. destruct c, c'. simpl. by intros ->. Qed.

(** X1. [UnSelect] undoes [Select] exactly when no function was selected at
    the address before: then the map is the one before the two calls;
    otherwise the earlier selection at that address is lost and the map
    differs. *)
Theorem UnSelect_Select_round_trip (f : Function') (c : Capture') :
  (IsSelected GetVirtualAddress f c = false ->
     UnSelect GetVirtualAddress f (Select GetVirtualAddress f c) = c) /\
  (IsSelected GetVirtualAddress f c = true ->
     UnSelect GetVirtualAddress f (Select GetVirtualAddress f c) <> c /\
     IsSelected GetVirtualAddress f
       (UnSelect GetVirtualAddress f (Select GetVirtualAddress f c))
       = false).
Proof.
  unfold IsSelected, UnSelect, Select. simpl.
  destruct (GSelectedFunctionsMap c !! GetVirtualAddress f) as [g|] eqn:Hg.
  - split; [done|]. intros _. split.
    + intros H. apply (f_equal GSelectedFunctionsMap) in H. simpl in H.
      apply (f_equal (fun m => m !! GetVirtualAddress f)) in H.
      rewrite lookup_delete_eq, Hg in H. discriminate H.
    + by rewrite lookup_delete_eq.
  - split; [|done]. intros _. apply Capture_eq. simpl.
    rewrite delete_insert_eq. by apply delete_id.
Qed.

(** X2. Two functions at one virtual address share one slot: selecting the
    second replaces the first in the map, and unselecting either leaves
    neither selected. *)
Theorem Select_same_address (f g : Function') (c : Capture') :
  GetVirtualAddress f = GetVirtualAddress g ->
  Select GetVirtualAddress g (Select GetVirtualAddress f c)
    = Select GetVirtualAddress g c /\
  GSelectedFunctionsMap
    (Select GetVirtualAddress g (Select GetVirtualAddress f c))
    !! GetVirtualAddress f = Some g /\
  UnSelect GetVirtualAddress g (Select GetVirtualAddress f c)
    = UnSelect GetVirtualAddress f c /\
  IsSelected GetVirtualAddress f
    (UnSelect GetVirtualAddress g
       (Select GetVirtualAddress g (Select GetVirtualAddress f c))) = false.
Proof.
  intros Hfg. unfold IsSelected, UnSelect, Select. simpl. rewrite Hfg.
  split; [|split; [|split]].
  - apply Capture_eq. simpl. by rewrite insert_insert_eq.
  - by rewrite lookup_insert_eq.
  - apply Capture_eq. simpl. by rewrite delete_insert_eq.
  - by rewrite lookup_delete_eq.
Qed.

(** X3. Calls on functions at different virtual addresses commute: the
    map after [Select] or [UnSelect] of one and of the other does not
    depend on the order. *)
Theorem Select_UnSelect_commute (f g : Function') (c : Capture') :
  GetVirtualAddress f <> GetVirtualAddress g ->
  Select GetVirtualAddress f (Select GetVirtualAddress g c)
    = Select GetVirtualAddress g (Select GetVirtualAddress f c) /\
  UnSelect GetVirtualAddress f (Select GetVirtualAddress g c)
    = Select GetVirtualAddress g (UnSelect GetVirtualAddress f c) /\
  UnSelect GetVirtualAddress f (UnSelect GetVirtualAddress g c)
    = UnSelect GetVirtualAddress g (UnSelect GetVirtualAddress f c).
Proof.
  intros Hfg. unfold UnSelect, Select. simpl.
  split; [|split]; apply Capture_eq; simpl.
  - by apply insert_insert_ne.
  - by rewrite delete_insert_ne.
  - apply delete_delete.
Qed.

End SelectionFacts.

(** ** [Function]: calling conventions and orbit types *)

Section NameFacts.

Context {FunctionStats HeaderMembers : Type}.
Abbreviation Function'' := (Function FunctionStats HeaderMembers).
Variable PrettyName : Function'' -> string.
Variable SetOrbitType : OrbitType -> Function'' -> Function''.

Lemma kCallingConventions_NoDup : NoDup kCallingConventions.
Proof. apply (bool_decide_unpack _). by vm_compute. Qed.

Lemma UnknownCallConv_not_in_table :
  "UnknownCallConv"%string ∉ kCallingConventions.
Proof. apply (bool_decide_unpack _). by vm_compute. Qed.

(** X4. The string names the convention: two functions whose calling
    conventions are both between 0 and 25 get the same string only when
    the conventions are equal, and ["UnknownCallConv"] is returned for no
    convention between 0 and 25. *)
Theorem GetCallingConventionString_names (this other : Function'') :
  0 <= calling_convention_ this <= 25 ->
  GetCallingConventionString this <> Some "UnknownCallConv"%string /\
  (0 <= calling_convention_ other <= 25 ->
   GetCallingConventionString this = GetCallingConventionString other ->
   calling_convention_ this = calling_convention_ other).
Proof.
  intros Hthis.
  assert (Hin : forall f : Function'',
            0 <= calling_convention_ f <= 25 ->
            GetCallingConventionString f =
              kCallingConventions !! Z.to_nat (calling_convention_ f) /\
            (Z.to_nat (calling_convention_ f)
               < length kCallingConventions)%nat).
  { intros f Hf. unfold GetCallingConventionString, static_cast_size_t.
    change (length kCallingConventions) with 26%nat.
    rewrite Z.mod_small by lia.
    replace (calling_convention_ f <? 0) with false
      by (symmetry; apply Z.ltb_ge; lia).
    replace (Z.of_nat 26 <=? calling_convention_ f) with false
      by (symmetry; apply Z.leb_gt; lia).
    split; [done | lia]. }
  destruct (Hin this Hthis) as [Hs Hlen]. split.
  - rewrite Hs. intros H.
    apply UnknownCallConv_not_in_table, list_elem_of_lookup. eauto.
  - intros Hother Heq. destruct (Hin other Hother) as [Hs' Hlen'].
    rewrite Hs, Hs' in Heq.
    destruct (lookup_lt_is_Some_2 _ _ Hlen) as [s Hsome].
    rewrite Hsome in Heq. symmetry in Heq.
    pose proof (NoDup_lookup _ _ _ _ kCallingConventions_NoDup Hsome Heq).
    lia.
Qed.

(** X5. When the pretty name starts with ["orbit_api::"] and every
    pattern of the table that occurs in it is paired with one and the same
    orbit type, [SetOrbitTypeFromName] sets that type and returns [true]
    in whatever order the hash map yields its entries. *)
Theorem SetOrbitTypeFromName_order_independent
    (entries : list (string * OrbitType)) (this : Function'')
    (pattern : string) (type : OrbitType) :
  entries ≡ₚ function_name_to_type_map ->
  StartsWith (PrettyName this) "orbit_api::" = true ->
  (pattern, type) ∈ function_name_to_type_map ->
  StrContains (PrettyName this) pattern = true ->
  (forall pattern' type',
     (pattern', type') ∈ function_name_to_type_map ->
     StrContains (PrettyName this) pattern' = true -> type' = type) ->
  SetOrbitTypeFromName PrettyName SetOrbitType entries this
    = (true, SetOrbitType type this).
Proof.
  intros Hperm Hstart Hin Hp Hall. unfold SetOrbitTypeFromName.
  rewrite Hstart.
  destruct (SetOrbitTypeFromName_loop SetOrbitType (PrettyName this) entries
              this) as [this'|] eqn:Hloop.
  - apply SetOrbitTypeFromName_loop_Some in Hloop
      as (p & t & Hin' & Hp' & ->).
    rewrite Hperm in Hin'. by rewrite (Hall p t Hin' Hp').
  - rewrite SetOrbitTypeFromName_loop_None in Hloop.
    rewrite <- Hperm in Hin. rewrite (Hloop _ _ Hin) in Hp. discriminate Hp.
Qed.

(** X6. Which type is set depends on the order of the hash map when
    several patterns occur in the name: for each pattern of the table that
    occurs in a pretty name starting with ["orbit_api::"], there is an
    order of the twelve entries in which [SetOrbitTypeFromName] sets the
    type paired with that pattern. *)
Theorem SetOrbitTypeFromName_order_dependent (this : Function'')
    (pattern : string) (type : OrbitType) :
  StartsWith (PrettyName this) "orbit_api::" = true ->
  (pattern, type) ∈ function_name_to_type_map ->
  StrContains (PrettyName this) pattern = true ->
  exists entries,
    entries ≡ₚ function_name_to_type_map /\
    SetOrbitTypeFromName PrettyName SetOrbitType entries this
      = (true, SetOrbitType type this).
Proof.
  intros Hstart Hin Hp.
  apply elem_of_Permutation in Hin as [rest Hrest].
  exists ((pattern, type) :: rest). split; [done|].
  unfold SetOrbitTypeFromName. rewrite Hstart. simpl. by rewrite Hp.
Qed.

End NameFacts.

Lemma GetCallingConventionString_names_witness :
  GetCallingConventionString (demo_function "main" 4096 11)
    <> Some "UnknownCallConv"%string.
Proof.
  apply (proj1 (GetCallingConventionString_names
                  (demo_function "main" 4096 11)
                  (demo_function "main" 4096 11)
                  ltac:(simpl; lia))).
Defined.

Lemma SetOrbitTypeFromName_order_independent_witness :
  SetOrbitTypeFromName demo_PrettyName demo_SetOrbitType
    (reverse function_name_to_type_map)
    (demo_function "orbit_api::TrackInt64(char const*, long)" 4096 0)
  = (true,
     demo_SetOrbitType ORBIT_TRACK_INT_64
       (demo_function "orbit_api::TrackInt64(char const*, long)" 4096 0)).
Proof.
  apply (SetOrbitTypeFromName_order_independent demo_PrettyName
           demo_SetOrbitType (reverse function_name_to_type_map)
           (demo_function "orbit_api::TrackInt64(char const*, long)" 4096 0)
           "TrackInt64(" ORBIT_TRACK_INT_64).
  - apply reverse_Permutation.
  - reflexivity.
  - do 5 right. left.
  - reflexivity.
  - intros p t Hin.
    repeat (apply elem_of_cons in Hin as [[= -> ->]|Hin]);
      try (by apply elem_of_nil in Hin); vm_compute; congruence.
Defined.

Lemma SetOrbitTypeFromName_order_dependent_witness :
  exists entries,
    entries ≡ₚ function_name_to_type_map /\
    SetOrbitTypeFromName demo_PrettyName demo_SetOrbitType entries
      (demo_function "orbit_api::Start(Stop(int))" 4096 0)
    = (true,
       demo_SetOrbitType ORBIT_TIMER_STOP
         (demo_function "orbit_api::Start(Stop(int))" 4096 0)).
Proof.
  apply (SetOrbitTypeFromName_order_dependent demo_PrettyName
           demo_SetOrbitType
           (demo_function "orbit_api::Start(Stop(int))" 4096 0)
           "Stop(" ORBIT_TIMER_STOP).
  - reflexivity.
  - right. left.
  - reflexivity.
Defined.

Lemma UnSelect_Select_round_trip_witness :
  UnSelect demo_GetVirtualAddress (demo_function "f" 4096 0)
    (Select demo_GetVirtualAddress (demo_function "f" 4096 0) no_selection)
  = no_selection.
Proof.
  apply (proj1 (UnSelect_Select_round_trip demo_GetVirtualAddress
                  (demo_function "f" 4096 0) no_selection)).
  reflexivity.
Defined.

Lemma Select_same_address_witness :
  Select demo_GetVirtualAddress (demo_function "g" 4096 0)
    (Select demo_GetVirtualAddress (demo_function "f" 4096 0) no_selection)
  = Select demo_GetVirtualAddress (demo_function "g" 4096 0) no_selection.
Proof.
  apply (Select_same_address demo_GetVirtualAddress
           (demo_function "f" 4096 0) (demo_function "g" 4096 0)
           no_selection).
  reflexivity.
Defined.

Lemma Select_UnSelect_commute_witness :
  Select demo_GetVirtualAddress (demo_function "f" 4096 0)
    (Select demo_GetVirtualAddress (demo_function "h" 8192 0) no_selection)
  = Select demo_GetVirtualAddress (demo_function "h" 8192 0)
      (Select demo_GetVirtualAddress (demo_function "f" 4096 0)
         no_selection).
Proof.
  apply (Select_UnSelect_commute demo_GetVirtualAddress
           (demo_function "f" 4096 0) (demo_function "h" 8192 0)
           no_selection).
  vm_compute. discriminate.
Defined.

(** ** [ProcessList::Refresh]: how a call completes *)

Import Scan.

Lemma index_loop_eq processes :
  forall i s,
  exists hs,
    index_loop i processes s =
      (Returns tt,
       mkMachine
         (mkProcessList (processes_ (this_ s))
            (index_of i processes (processes_map_ (this_ s))))
         (trace s) (history s ++ hs)).
Proof.
  induction processes as [|process processes IH]; intros i s; simpl.
  - exists []. rewrite app_nil_r. by destruct s as [[ps ix] tr hi].
  - run_M.
    destruct (IH (S i)
                (mkMachine
                   (mkProcessList (processes_ (this_ s))
                      (<[pid process:=i]> (processes_map_ (this_ s))))
                   (trace s)
                   (history s ++
                    [mkProcessList (processes_ (this_ s))
                       (<[pid process:=i]> (processes_map_ (this_ s)))])))
      as (hs & Hrun).
    simpl in Hrun. eexists. rewrite Hrun. by rewrite <- (assoc_L (++)).
Qed.

(** A call with a readable CPU aggregate, in terms of its loop. *)
Lemma run_Refresh_unfold sys pl cpu_usage_map :
  GetCpuUtilization sys = success cpu_usage_map ->
  match Refresh_loop sys cpu_usage_map (proc_entries sys) [] (start pl) with
  | (Returns upd, s1) =>
      exists hs,
        run_Refresh sys pl =
          (Returns (success tt),
           mkMachine (mkProcessList upd (index_of 0 upd ∅)) (trace s1)
             (history s1 ++ hs))
  | (Throws ex, s1) => run_Refresh sys pl = (Throws ex, s1)
  end.
Proof.
  intros Hcpu.
  assert (Hrun : run_Refresh sys pl =
            (Refresh_loop sys cpu_usage_map (proc_entries sys) []
               ≫= λ updated_processes,
                    this ← get_this;
                    put_this (mkProcessList updated_processes
                                (processes_map_ this));;
                    this ← get_this;
                    put_this (mkProcessList (processes_ this) ∅);;
                    this ← get_this;
                    index_loop 0 (processes_ this);;
                    mret (success tt)) (start pl)).
  { unfold run_Refresh, Refresh. by rewrite Hcpu. }
  destruct (Refresh_loop sys cpu_usage_map (proc_entries sys) [] (start pl))
    as [[upd|ex] s1] eqn:Hscan.
  2:{ rewrite Hrun. unfold mbind at 1, M_bind at 1. by rewrite Hscan. }
  destruct (index_loop_eq upd 0
              (mkMachine (mkProcessList upd ∅) (trace s1)
                 ((history s1 ++
                   [mkProcessList upd (processes_map_ (this_ s1))])
                  ++ [mkProcessList upd ∅])))
    as (hs & Hloop).
  simpl in Hloop.
  exists ([mkProcessList upd (processes_map_ (this_ s1))] ++
          [mkProcessList upd ∅] ++ hs).
  rewrite Hrun. unfold mbind at 1, M_bind at 1. rewrite Hscan.
  run_M. rewrite Hloop. by rewrite <- !(assoc_L (++)).
Qed.

Lemma index_sound_pointers_valid pl : index_sound pl -> pointers_valid pl.
Proof.
  intros H k ptr Hk. destruct (H k ptr Hk) as (p & Hp & _). by exists p.
Qed.

(** A turn of the loop throws on the entries [cmdline_unreadable]
    describes and on no other, and appends what [record_of_entry] says. *)
Lemma Refresh_body_completion sys cpu_usage_map pl entry upd s :
  refreshed_in_place cpu_usage_map pl (this_ s) ->
  pointers_valid pl ->
  (Refresh_body sys cpu_usage_map entry upd s).1 =
    if cmdline_unreadable sys pl entry
    then Throws (bad_result_access "no error")
    else Returns (upd ++ option_list
                    (record_of_entry sys cpu_usage_map pl entry)).
Proof.
  intros [Hmap Hrecs] Hvalid.
  unfold Refresh_body, record_of_entry, cmdline_unreadable.
  destruct (is_directory entry); simpl; [|by rewrite app_nil_r].
  destruct (SimpleAtoi (filename entry)) as [upid|]; simpl;
    [|by rewrite app_nil_r].
  run_M. rewrite Hmap.
  destruct (processes_map_ pl !! to_int32 upid) as [ptr|] eqn:Hptr.
  - destruct (Hvalid _ _ Hptr) as [p Hp].
    destruct (Forall2_lookup_l _ _ _ _ _ Hrecs Hp) as (q & Hq & Hpq).
    rewrite Hq, Hp. simpl.
    by rewrite (cpu_refreshed_set cpu_usage_map p q).
  - destruct (FileToString sys (path_append (path entry) "comm"))
      as [name_read|e1]; simpl; [|by rewrite app_nil_r].
    destruct (String.eqb (StripTrailingAsciiWhitespace name_read) EmptyString);
      simpl.
    { repeat case_match; by rewrite app_nil_r. }
    destruct (FileToString sys (path_append (path entry) "cmdline"))
      as [cmdline|e2]; simpl; [|done].
    destruct (Is64Bit sys (to_int32 upid)) as [b|e3]; simpl;
      [done | by rewrite app_nil_r].
Qed.

Lemma Refresh_loop_completion sys cpu_usage_map pl entries :
  pointers_valid pl ->
  forall upd s,
    refreshed_in_place cpu_usage_map pl (this_ s) ->
    (Refresh_loop sys cpu_usage_map entries upd s).1 =
      if existsb (cmdline_unreadable sys pl) entries
      then Throws (bad_result_access "no error")
      else Returns (upd ++ omap (record_of_entry sys cpu_usage_map pl)
                             entries).
Proof.
  intros Hvalid.
  induction entries as [|entry entries IH]; intros upd s Hinv; simpl.
  - by rewrite app_nil_r.
  - unfold mbind, M_bind.
    pose proof (Refresh_body_completion sys cpu_usage_map pl entry upd s
                  Hinv Hvalid) as Hc.
    destruct (Refresh_body sys cpu_usage_map entry upd s) as [c1 s1] eqn:Hbody.
    destruct (Refresh_body_spec _ _ _ _ _ _ _ _ Hinv Hbody) as (Hinv1 & _).
    simpl in Hc. subst c1.
    destruct (cmdline_unreadable sys pl entry); simpl; [done|].
    rewrite (IH _ _ Hinv1).
    destruct (existsb (cmdline_unreadable sys pl) entries); [done|].
    rewrite <- (assoc_L (++)).
    by destruct (record_of_entry sys cpu_usage_map pl entry).
Qed.

Lemma run_Refresh_completes (sys : System) (pl : ProcessList) :
  index_sound pl ->
  (run_Refresh sys pl).1 =
    match GetCpuUtilization sys with
    | failure e =>
        Returns (failure ("Unable to retrieve cpu usage of processes: "
                          +:+ message e))
    | success _ =>
        if existsb (cmdline_unreadable sys pl) (proc_entries sys)
        then Throws (bad_result_access "no error")
        else Returns (success tt)
    end.
Proof.
  intros Hsound.
  destruct (GetCpuUtilization sys) as [cpu_usage_map|e] eqn:Hcpu.
  - pose proof (run_Refresh_unfold sys pl cpu_usage_map Hcpu) as Hrun.
    pose proof (Refresh_loop_completion sys cpu_usage_map pl
                  (proc_entries sys) (index_sound_pointers_valid _ Hsound)
                  [] (start pl) (refreshed_in_place_refl _ _)) as Hc.
    destruct (Refresh_loop sys cpu_usage_map (proc_entries sys) []
                (start pl)) as [c1 s1].
    simpl in Hc. subst c1.
    destruct (existsb (cmdline_unreadable sys pl) (proc_entries sys)).
    + by rewrite Hrun.
    + destruct Hrun as [hs ->]. done.
  - by rewrite (run_Refresh_failure _ _ _ Hcpu).
Qed.

(** X7. How a call of [Refresh] whose iteration over [/proc] runs to its
    end completes, on an object whose index is sound. With an unreadable
    CPU aggregate it returns the failure. With a readable one it throws
    [bad_result_access] exactly when the listing has a directory with an
    unknown pid whose [comm] gives a name and whose [cmdline] cannot be
    read, and returns success otherwise; it never returns a failure then,
    and it never dereferences a dangling pointer nor takes the value of a
    result that holds an error. (An iteration the file system interrupts
    throws [filesystem_error] out of the call; that is no case of this
    statement.) *)
Theorem Refresh_completion (sys : System) (pl : ProcessList) :
  index_sound pl ->
  (run_Refresh sys pl).1 =
    match GetCpuUtilization sys with
    | failure e =>
        Returns (failure ("Unable to retrieve cpu usage of processes: "
                          +:+ message e))
    | success _ =>
        if existsb (cmdline_unreadable sys pl) (proc_entries sys)
        then Throws (bad_result_access "no error")
        else Returns (success tt)
    end.
Proof. apply run_Refresh_completes. Qed.

Lemma Refresh_completion_witness :
  (run_Refresh sys_cmdline_gone table_idle).1 = Returns (success tt).
Proof.
  apply (Refresh_completion sys_cmdline_gone table_idle).
  apply reachable_index_sound, reachable_table_idle.
Defined.

(** ** [ProcessList::Refresh]: the records of the table *)

(** Where a record comes from, with the fields of a new one. *)
Lemma record_of_entry_cases sys cpu_usage_map pl entry q :
  record_of_entry sys cpu_usage_map pl entry = Some q ->
  exists upid,
    pid_of_entry entry = Some (to_int32 upid) /\
    ((exists ptr process,
        processes_map_ pl !! to_int32 upid = Some ptr /\
        processes_ pl !! ptr = Some process /\
        q = set_cpu_usage (cpu_usage_at cpu_usage_map (pid process)) process)
     \/
     (exists name_read cmdline b,
        processes_map_ pl !! to_int32 upid = None /\
        StripTrailingAsciiWhitespace name_read <> EmptyString /\
        q = mkProcessInfo (to_int32 upid)
              (StripTrailingAsciiWhitespace name_read)
              (cpu_usage_at cpu_usage_map (to_int32 upid))
              (up_to_nul cmdline) (replace "000" " " cmdline) b)).
Proof.
  unfold record_of_entry, pid_of_entry.
  destruct (is_directory entry); simpl; [|done].
  destruct (SimpleAtoi (filename entry)) as [upid|]; [|done].
  intros H. exists upid. split; [done|].
  destruct (processes_map_ pl !! to_int32 upid) as [ptr|] eqn:Hptr.
  - destruct (processes_ pl !! ptr) as [process|] eqn:Hp; [|done].
    injection H as <-. left. by exists ptr, process.
  - right.
    destruct (FileToString sys (path_append (path entry) "comm"))
      as [name_read|]; [|done].
    destruct (FileToString sys (path_append (path entry) "cmdline"))
      as [cmdline|]; [|done].
    destruct (Is64Bit sys (to_int32 upid)) as [b|]; [|done].
    simpl in H.
    destruct (String.eqb_spec (StripTrailingAsciiWhitespace name_read)
                EmptyString) as [|Hname]; [done|].
    injection H as <-. by exists name_read, cmdline, b.
Qed.

Lemma record_of_entry_pid sys cpu_usage_map pl entry q :
  index_sound pl ->
  record_of_entry sys cpu_usage_map pl entry = Some q ->
  pid_of_entry entry = Some (pid q).
Proof.
  intros Hsound H.
  apply record_of_entry_cases in H
    as (upid & Hpid & [(ptr & p & Hptr & Hp & ->)|(n & c & b & _ & _ & ->)]);
    [|done].
  destruct (Hsound _ _ Hptr) as (p' & Hp' & Hk).
  rewrite Hp in Hp'. injection Hp' as <-. simpl. by rewrite Hk.
Qed.

(** The table a call that returns success leaves. *)
Lemma run_Refresh_table sys pl cpu_usage_map :
  GetCpuUtilization sys = success cpu_usage_map ->
  (run_Refresh sys pl).1 = Returns (success tt) ->
  this_ (run_Refresh sys pl).2 =
    mkProcessList
      (omap (record_of_entry sys cpu_usage_map pl) (proc_entries sys))
      (index_of 0
         (omap (record_of_entry sys cpu_usage_map pl) (proc_entries sys))
         ∅).
Proof.
  intros Hcpu Hok.
  pose proof (run_Refresh_unfold sys pl cpu_usage_map Hcpu) as Hrun.
  destruct (Refresh_loop sys cpu_usage_map (proc_entries sys) [] (start pl))
    as [[upd|ex] s1] eqn:Hloop.
  - destruct (Refresh_loop_spec sys cpu_usage_map pl (proc_entries sys) []
                (start pl) _ s1 (refreshed_in_place_refl cpu_usage_map pl)
                Hloop) as (_ & _ & _ & Hupd).
    destruct Hrun as [hs ->]. simpl.
    by rewrite (Hupd upd eq_refl).
  - rewrite Hrun in Hok. discriminate Hok.
Qed.

(** X8. The new table follows the listing: after a call that returns
    success on an object with a sound index, the pids of the records, in
    the order of the table, are a subsequence of the pids of the directory
    entries, in the order of the listing; so the table is no longer than
    the listing has pid directories. *)
Theorem Refresh_table_follows_listing (sys : System) (pl : ProcessList) :
  index_sound pl ->
  (run_Refresh sys pl).1 = Returns (success tt) ->
  pid <$> processes_ (this_ (run_Refresh sys pl).2)
    `sublist_of` scanned_pids (proc_entries sys) /\
  (length (processes_ (this_ (run_Refresh sys pl).2))
     <= length (scanned_pids (proc_entries sys)))%nat.
Proof.
  intros Hsound Hok.
  assert (Hsub : pid <$> processes_ (this_ (run_Refresh sys pl).2)
                   `sublist_of` scanned_pids (proc_entries sys)).
  { destruct (GetCpuUtilization sys) as [cpu_usage_map|e] eqn:Hcpu.
    2:{ rewrite (run_Refresh_failure _ _ _ Hcpu) in Hok. discriminate Hok. }
    rewrite (run_Refresh_table sys pl cpu_usage_map Hcpu Hok). simpl.
    unfold scanned_pids.
    induction (proc_entries sys) as [|entry entries IH]; simpl; [done|].
    destruct (record_of_entry sys cpu_usage_map pl entry) as [q|] eqn:Hq.
    - rewrite (record_of_entry_pid _ _ _ _ _ Hsound Hq). simpl.
      by apply sublist_skip.
    - destruct (pid_of_entry entry); [by apply sublist_cons | done]. }
  split; [done|].
  apply sublist_length in Hsub. by rewrite length_fmap in Hsub.
Qed.

Lemma Refresh_table_follows_listing_witness :
  pid <$> processes_ (this_ (run_Refresh sys_busy table_idle).2)
    `sublist_of` scanned_pids (proc_entries sys_busy).
Proof.
  apply (Refresh_table_follows_listing sys_busy table_idle).
  - apply reachable_index_sound, reachable_table_idle.
  - vm_compute. reflexivity.
Defined.

Lemma run_Refresh_cpu_usage (sys : System) (pl : ProcessList)
    (cpu_usage_map : gmap Z double) (q : ProcessInfo) :
  GetCpuUtilization sys = success cpu_usage_map ->
  (run_Refresh sys pl).1 = Returns (success tt) ->
  q ∈ processes_ (this_ (run_Refresh sys pl).2) ->
  cpu_usage q = default double_zero (cpu_usage_map !! pid q).
Proof.
  intros Hcpu Hok Hq.
  rewrite (run_Refresh_table sys pl cpu_usage_map Hcpu Hok) in Hq.
  simpl in Hq. apply list_elem_of_omap in Hq as (entry & _ & Hrec).
  apply record_of_entry_cases in Hrec
    as (upid & _ & [(ptr & p & _ & _ & ->)|(n & c & b & _ & _ & ->)]);
    reflexivity.
Qed.

(** X9. After a call that returns success, the [cpu_usage] of every
    record of the table, carried over or new, is the value of the
    aggregate under the pid of the record, and zero when the aggregate has
    no value for that pid. *)
Theorem Refresh_cpu_usage_from_aggregate (sys : System) (pl : ProcessList)
    (cpu_usage_map : gmap Z double) (q : ProcessInfo) :
  GetCpuUtilization sys = success cpu_usage_map ->
  (run_Refresh sys pl).1 = Returns (success tt) ->
  q ∈ processes_ (this_ (run_Refresh sys pl).2) ->
  cpu_usage q = default double_zero (cpu_usage_map !! pid q).
Proof. apply run_Refresh_cpu_usage. Qed.

Lemma Refresh_cpu_usage_from_aggregate_witness :
  cpu_usage
    (mkProcessInfo 2 "sh" double_12_5 "/bin/sh" "/bin/sh " true)
  = default double_zero
      ((<[1 := double_50]> (<[2 := double_12_5]> ∅) : gmap Z double) !! 2).
Proof.
  apply (Refresh_cpu_usage_from_aggregate sys_busy table_idle
           (<[1 := double_50]> (<[2 := double_12_5]> ∅))
           (mkProcessInfo 2 "sh" double_12_5 "/bin/sh" "/bin/sh " true)).
  - reflexivity.
  - vm_compute. reflexivity.
  - vm_compute. right. left.
Defined.

(** ** [ProcessList::Refresh]: what every record of an object satisfies *)

Lemma StripTrailingAsciiWhitespace_last (s : string) :
  forall t c,
    StripTrailingAsciiWhitespace s = t +:+ String c EmptyString ->
    ascii_isspace c = false.
Proof.
  induction s as [|a s IH]; intros t c; simpl.
  - destruct t; discriminate.
  - destruct (StripTrailingAsciiWhitespace s) as [|b r] eqn:Hs.
    + destruct (ascii_isspace a) eqn:Ha.
      * destruct t; discriminate.
      * destruct t as [|x t]; simpl.
        -- by intros [= <-].
        -- intros [= _ H]. destruct t; discriminate H.
    + destruct t as [|x t]; simpl.
      * by intros [=].
      * intros [= _ H]. by apply (IH t c).
Qed.

Lemma up_to_nul_no_nul (s : string) : no_nul (up_to_nul s).
Proof.
  unfold no_nul. induction s as [|c s IH]; simpl.
  - apply not_elem_of_nil.
  - destruct (Ascii.eqb_spec c "000") as [->|Hc]; simpl.
    + apply not_elem_of_nil.
    + intros [H|H]%elem_of_cons; [congruence | done].
Qed.

Lemma replace_no_nul (s : string) : no_nul (replace "000" " " s).
Proof.
  unfold no_nul. induction s as [|c s IH]; simpl.
  - apply not_elem_of_nil.
  - intros [H|H]%elem_of_cons; [|done].
    destruct (Ascii.eqb_spec c "000") as [->|Hc]; [discriminate H | congruence].
Qed.

Lemma up_to_nul_prefix_replace (s : string) :
  exists rest, replace "000" " " s = up_to_nul s +:+ rest.
Proof.
  induction s as [|c s [rest IH]]; simpl.
  - by exists EmptyString.
  - destruct (Ascii.eqb_spec c "000") as [->|Hc]; simpl.
    + by eexists.
    + exists rest. by rewrite IH.
Qed.

(** A property that [set_cpu_usage] keeps and every newly built record
    has holds of every record of every object a program can hold. *)
Lemma reachable_records (P : ProcessInfo -> Prop) :
  (forall v p, P p -> P (set_cpu_usage v p)) ->
  (forall k name_read v cmdline b,
     StripTrailingAsciiWhitespace name_read <> EmptyString ->
     P (mkProcessInfo k (StripTrailingAsciiWhitespace name_read) v
          (up_to_nul cmdline) (replace "000" " " cmdline) b)) ->
  forall pl, reachable pl -> forall q, q ∈ processes_ pl -> P q.
Proof.
  intros Hset Hnew pl Hreach.
  induction Hreach as [|sys pl _ IH]; intros q Hq.
  - by apply elem_of_nil in Hq.
  - destruct (GetCpuUtilization sys) as [cpu_usage_map|e] eqn:Hcpu.
    2:{ rewrite (run_Refresh_failure _ _ _ Hcpu) in Hq. by apply IH. }
    destruct (run_Refresh sys pl) as [c m] eqn:Hrun.
    destruct (run_Refresh_scanned _ _ _ _ _ Hcpu Hrun) as [_ H].
    simpl in Hq. destruct c as [r|ex].
    + destruct H as (_ & Htable & _). rewrite Htable in Hq.
      apply list_elem_of_omap in Hq as (entry & _ & Hrec).
      apply record_of_entry_cases in Hrec
        as (upid & _ & [(ptr & p & _ & Hp & ->)|(n & c & b & _ & Hn & ->)]).
      * apply Hset, IH. apply list_elem_of_lookup. eauto.
      * by apply Hnew.
    + destruct H as [[_ Hrecs] _].
      apply list_elem_of_lookup in Hq as [i Hi].
      destruct (Forall2_lookup_r _ _ _ _ _ Hrecs Hi) as (p & Hp & [->| ->]).
      * apply IH. apply list_elem_of_lookup. eauto.
      * apply Hset, IH. apply list_elem_of_lookup. eauto.
Qed.

(** X10. Every record of every object a program can hold, whichever way
    the calls of [Refresh] before completed, has a name that is not empty
    and does not end in white space. *)
Theorem reachable_record_names (pl : ProcessList) (q : ProcessInfo) :
  reachable pl ->
  q ∈ processes_ pl ->
  name q <> EmptyString /\
  (forall t c, name q = t +:+ String c EmptyString ->
               ascii_isspace c = false).
Proof.
  intros Hreach Hq. revert pl Hreach q Hq. apply reachable_records.
  - intros v p. by destruct p.
  - intros k name_read v cmdline b Hname. simpl. split; [done|].
    apply StripTrailingAsciiWhitespace_last.
Qed.

(** X11. In every record of every object a program can hold,
    [full_path] and [command_line] hold no character of code 0, and
    [command_line] starts with [full_path]. *)
Theorem reachable_record_paths (pl : ProcessList) (q : ProcessInfo) :
  reachable pl ->
  q ∈ processes_ pl ->
  no_nul (full_path q) /\ no_nul (command_line q) /\
  exists rest, command_line q = full_path q +:+ rest.
Proof.
  intros Hreach Hq. revert pl Hreach q Hq. apply reachable_records.
  - intros v p. by destruct p.
  - intros k name_read v cmdline b _. simpl.
    split; [apply up_to_nul_no_nul|].
    split; [apply replace_no_nul | apply up_to_nul_prefix_replace].
Qed.

Lemma init_in_table_idle :
  mkProcessInfo 1 "init" double_zero "/sbin/init" "/sbin/init splash " true
    ∈ processes_ table_idle.
Proof. vm_compute. left. Qed.

Lemma reachable_record_names_witness :
  name (mkProcessInfo 1 "init" double_zero "/sbin/init"
          "/sbin/init splash " true) <> EmptyString.
Proof.
  apply (reachable_record_names table_idle
           (mkProcessInfo 1 "init" double_zero "/sbin/init"
              "/sbin/init splash " true)
           reachable_table_idle init_in_table_idle).
Defined.

Lemma reachable_record_paths_witness :
  no_nul (full_path (mkProcessInfo 1 "init" double_zero "/sbin/init"
                       "/sbin/init splash " true)).
Proof.
  apply (reachable_record_paths table_idle
           (mkProcessInfo 1 "init" double_zero "/sbin/init"
              "/sbin/init splash " true)
           reachable_table_idle init_in_table_idle).
Defined.

(** X12. When the index knows the pid of every directory of the listing
    whose name parses, a call of [Refresh] has no effect outside the
    object: it reads no file, asks for no bitness and logs nothing. *)
Theorem Refresh_known_pids_no_effects (sys : System) (pl : ProcessList) :
  (forall entry upid,
     entry ∈ proc_entries sys -> is_directory entry = true ->
     SimpleAtoi (filename entry) = Some upid ->
     is_Some (processes_map_ pl !! to_int32 upid)) ->
  trace (run_Refresh sys pl).2 = [].
Proof.
  intros Hknown.
  destruct (GetCpuUtilization sys) as [cpu_usage_map|e] eqn:Hcpu.
  - destruct (run_Refresh sys pl) as [c m] eqn:Hrun.
    destruct (run_Refresh_scanned _ _ _ _ _ Hcpu Hrun) as [Htrace _].
    simpl. destruct (trace m) as [|ev evs]; [done|].
    apply Forall_cons_1 in Htrace
      as [(entry & Hin & Hdir & upid & Hatoi & Hnone & _) _].
    destruct (Hknown entry upid Hin Hdir Hatoi) as [ptr Hptr]. congruence.
  - by rewrite (run_Refresh_failure _ _ _ Hcpu).
Qed.

Lemma Refresh_known_pids_no_effects_witness :
  trace (run_Refresh sys_busy table_idle).2 = [].
Proof.
  apply (Refresh_known_pids_no_effects sys_busy table_idle).
  intros entry upid Hin Hdir Hatoi.
  repeat (apply elem_of_cons in Hin as [->|Hin]);
    try (by apply elem_of_nil in Hin);
    try discriminate Hdir; try discriminate Hatoi;
    injection Hatoi as <-; vm_compute; eauto.
Defined.

Lemma reachable_index_covering (pl : ProcessList) :
  reachable pl ->
  index_sound pl /\
  (forall q, q ∈ processes_ pl -> is_Some (processes_map_ pl !! pid q)).
Proof.
  intros Hreach. split; [by apply reachable_index_sound|].
  induction Hreach as [|sys pl _ IH]; intros q Hq.
  - by apply elem_of_nil in Hq.
  - destruct (GetCpuUtilization sys) as [cpu_usage_map|e] eqn:Hcpu.
    2:{ rewrite (run_Refresh_failure _ _ _ Hcpu) in *. by apply IH. }
    destruct (run_Refresh sys pl) as [c m] eqn:Hrun.
    destruct (run_Refresh_scanned _ _ _ _ _ Hcpu Hrun) as [_ H].
    simpl in *. destruct c as [r|ex].
    + destruct H as (_ & _ & _ & Hcover & _). by apply Hcover.
    + destruct H as [[Hmap Hrecs] _]. rewrite Hmap.
      apply list_elem_of_lookup in Hq as [i Hi].
      destruct (Forall2_lookup_r _ _ _ _ _ Hrecs Hi) as (p & Hp & Hpq).
      rewrite (cpu_refreshed_pid _ _ _ Hpq).
      apply IH. apply list_elem_of_lookup. eauto.
Qed.

(** X13. On every object a program can hold, whichever way the calls of
    [Refresh] before completed, the index is sound and files the pid of
    every record of the table. *)
Theorem reachable_index_invariant (pl : ProcessList) :
  reachable pl ->
  index_sound pl /\
  (forall q, q ∈ processes_ pl -> is_Some (processes_map_ pl !! pid q)).
Proof. apply reachable_index_covering. Qed.

Lemma reachable_index_invariant_witness :
  ((run_Refresh sys_cron_gone table_idle).1
     = Throws (bad_result_access "no error") /\
   processes_ (this_ (run_Refresh sys_cron_gone table_idle).2) =
     [mkProcessInfo 1 "init" double_50 "/sbin/init" "/sbin/init splash "
        true;
      mkProcessInfo 2 "sh" double_12_5 "/bin/sh" "/bin/sh " true]) /\
  (index_sound (this_ (run_Refresh sys_cron_gone table_idle).2) /\
   (forall q,
      q ∈ processes_ (this_ (run_Refresh sys_cron_gone table_idle).2) ->
      is_Some (processes_map_ (this_ (run_Refresh sys_cron_gone table_idle).2)
                 !! pid q))).
Proof.
  split.
  - vm_compute. done.
  - apply (reachable_index_invariant
             (this_ (run_Refresh sys_cron_gone table_idle).2)).
    apply reachable_Refresh, reachable_table_idle.
Defined.

(** ** [ProcessList::Refresh]: the index, and a second call *)

Lemma index_of_lookup processes :
  forall i index k ptr,
    index_of i processes index !! k = Some ptr <->
    (exists n q,
       processes !! n = Some q /\ pid q = k /\ ptr = (i + n)%nat /\
       forall n' q', (n < n')%nat -> processes !! n' = Some q' ->
                     pid q' <> k) \/
    (index !! k = Some ptr /\ forall q, q ∈ processes -> pid q <> k).
Proof.
  induction processes as [|p processes IH]; intros i index k ptr; simpl.
  - split.
    + intros H. right. split; [done|]. intros q Hq.
      by apply elem_of_nil in Hq.
    + intros [(n & q & Hn & _)|[H _]]; [done | done].
  - rewrite IH. split.
    + intros [(n & q & Hn & Hq & -> & Hlast)|[Hk Hnone]].
      * left. exists (S n), q. split; [done|]. split; [done|].
        split; [lia|]. intros [|n'] q' Hlt Hn'; [lia|].
        apply (Hlast n' q'); [lia | done].
      * destruct (decide (pid p = k)) as [Hp|Hp].
        -- rewrite Hp, lookup_insert_eq in Hk. injection Hk as <-.
           left. exists 0%nat, p. split; [done|]. split; [done|].
           split; [lia|]. intros [|n'] q' Hlt Hn'; [lia|].
           apply Hnone. apply list_elem_of_lookup. eauto.
        -- rewrite lookup_insert_ne in Hk by done. right. split; [done|].
           intros q [->|Hq]%elem_of_cons; [done | by apply Hnone].
    + intros [(n & q & Hn & Hq & -> & Hlast)|[Hk Hnone]].
      * destruct n as [|n]; simpl in Hn.
        -- injection Hn as ->. right. split.
           ++ rewrite Hq, lookup_insert_eq. f_equal. lia.
           ++ intros q' [n' Hn']%list_elem_of_lookup.
              apply (Hlast (S n') q'); [lia | done].
        -- left. exists n, q. split; [done|]. split; [done|].
           split; [lia|]. intros n' q' Hlt Hn'.
           apply (Hlast (S n') q'); [lia | done].
      * right. split.
        -- rewrite lookup_insert_ne; [done|]. apply Hnone. left.
        -- intros q Hq. apply Hnone. by right.
Qed.

(** X14. After a call that returns success, the index files a pid under
    the position of the last record of the table with that pid, and files
    nothing else: when two records share a pid the index points to the
    later one. *)
Theorem Refresh_index_points_to_last (sys : System) (pl : ProcessList)
    (k : Z) (ptr : nat) :
  (run_Refresh sys pl).1 = Returns (success tt) ->
  let pl' := this_ (run_Refresh sys pl).2 in
  processes_map_ pl' !! k = Some ptr <->
  exists q,
    processes_ pl' !! ptr = Some q /\ pid q = k /\
    forall n' q', (ptr < n')%nat -> processes_ pl' !! n' = Some q' ->
                  pid q' <> k.
Proof.
  intros Hok pl'. subst pl'.
  destruct (GetCpuUtilization sys) as [cpu_usage_map|e] eqn:Hcpu.
  2:{ rewrite (run_Refresh_failure _ _ _ Hcpu) in Hok. discriminate Hok. }
  rewrite (run_Refresh_table sys pl cpu_usage_map Hcpu Hok). simpl.
  rewrite index_of_lookup. split.
  - intros [(n & q & Hn & Hq & -> & Hlast)|[H _]].
    + by exists q.
    + by rewrite lookup_empty in H.
  - intros (q & Hq & Hk & Hlast). left. by exists ptr, q.
Qed.

Lemma Refresh_index_points_to_last_witness :
  processes_map_ (this_ (run_Refresh sys_busy table_idle).2) !! 2
    = Some 1%nat <->
  exists q,
    processes_ (this_ (run_Refresh sys_busy table_idle).2) !! 1%nat = Some q
    /\ pid q = 2 /\
    forall n' q', (1 < n')%nat ->
      processes_ (this_ (run_Refresh sys_busy table_idle).2) !! n' = Some q'
      -> pid q' <> 2.
Proof.
  apply (Refresh_index_points_to_last sys_busy table_idle 2 1%nat).
  vm_compute. reflexivity.
Defined.

Lemma omap_ext_in {A B} (f g : A -> option B) (l : list A) :
  (forall x, x ∈ l -> f x = g x) -> omap f l = omap g l.
Proof.
  induction l as [|a l IH]; intros H; [done|].
  assert (omap f l = omap g l) as IH'.
  { apply IH. intros x Hx. apply H. by right. }
  change (omap f (a :: l))
    with (match f a with Some b => b :: omap f l | None => omap f l end).
  change (omap g (a :: l))
    with (match g a with Some b => b :: omap g l | None => omap g l end).
  rewrite (H a) by left. by rewrite IH'.
Qed.

Lemma omap_NoDup_inj {A B} (f : A -> option B) (l : list A) (x y : A)
    (k : B) :
  NoDup (omap f l) -> x ∈ l -> y ∈ l -> f x = Some k -> f y = Some k ->
  x = y.
Proof.
  induction l as [|a l IH]; intros Hnd Hx Hy Hfx Hfy.
  - by apply elem_of_nil in Hx.
  - change (omap f (a :: l))
      with (match f a with Some b => b :: omap f l | None => omap f l end)
      in Hnd.
    assert (Hin : forall z, z ∈ l -> f z = Some k -> k ∈ omap f l).
    { intros z Hz Hfz. apply list_elem_of_omap. eauto. }
    apply elem_of_cons in Hx as [->|Hx];
      apply elem_of_cons in Hy as [->|Hy]; [done| | |].
    + rewrite Hfx in Hnd. apply NoDup_cons in Hnd as [Hk _].
      destruct Hk. eauto.
    + rewrite Hfy in Hnd. apply NoDup_cons in Hnd as [Hk _].
      destruct Hk. eauto.
    + apply IH; try done.
      destruct (f a); [by apply NoDup_cons in Hnd as [_ ?] | done].
Qed.

Lemma record_of_entry_no_pid sys cpu_usage_map pl entry :
  pid_of_entry entry = None ->
  record_of_entry sys cpu_usage_map pl entry = None.
Proof.
  unfold pid_of_entry, record_of_entry.
  destruct (is_directory entry); simpl; [|done].
  by destruct (SimpleAtoi (filename entry)).
Qed.

Lemma set_cpu_usage_same (q : ProcessInfo) :
  set_cpu_usage (cpu_usage q) q = q.
Proof. by destruct q. Qed.

Lemma existsb_false_in {A} (f : A -> bool) (l : list A) (x : A) :
  existsb f l = false -> x ∈ l -> f x = false.
Proof.
  induction l as [|a l IH]; simpl; intros H Hx.
  - by apply elem_of_nil in Hx.
  - apply orb_false_iff in H as [Ha Hl].
    apply elem_of_cons in Hx as [->|Hx]; [done | by apply IH].
Qed.

Lemma existsb_false_intro {A} (f : A -> bool) (l : list A) :
  (forall x, x ∈ l -> f x = false) -> existsb f l = false.
Proof.
  induction l as [|a l IH]; simpl; intros H; [done|].
  rewrite (H a) by left. apply IH. intros x Hx. apply H. by right.
Qed.

(** X15. A second call on a machine that has not changed changes
    nothing. On an object a program can hold, when the directories of the
    listing have pairwise different pids and a call of [Refresh] returns
    success, a call on the same machine right after returns success too and
    leaves the table and the index exactly as the first call left them. *)
Theorem Refresh_twice (sys : System) (pl : ProcessList) :
  reachable pl ->
  NoDup (scanned_pids (proc_entries sys)) ->
  (run_Refresh sys pl).1 = Returns (success tt) ->
  let pl1 := this_ (run_Refresh sys pl).2 in
  (run_Refresh sys pl1).1 = Returns (success tt) /\
  this_ (run_Refresh sys pl1).2 = pl1.
Proof.
  intros Hreach Hnodup Hok pl1.
  pose proof (reachable_index_sound _ Hreach) as Hsound.
  assert (Hreach1 : reachable pl1) by by apply reachable_Refresh.
  destruct (reachable_index_covering _ Hreach1) as [Hsound1 Hcover1].
  destruct (GetCpuUtilization sys) as [cpu_usage_map|e] eqn:Hcpu.
  2:{ rewrite (run_Refresh_failure _ _ _ Hcpu) in Hok. discriminate Hok. }
  pose proof (run_Refresh_table sys pl cpu_usage_map Hcpu Hok) as Hpl1.
  fold pl1 in Hpl1.
  set (T := omap (record_of_entry sys cpu_usage_map pl) (proc_entries sys))
    in *.
  assert (Htable : processes_ pl1 = T) by by rewrite Hpl1.
  (* the first call met no entry on which a turn throws *)
  pose proof (run_Refresh_completes sys pl Hsound) as Hc.
  rewrite Hok, Hcpu in Hc.
  destruct (existsb (cmdline_unreadable sys pl) (proc_entries sys)) eqn:Hex;
    [discriminate Hc|]. clear Hc.
  (* a record of the first table is filed under its pid *)
  assert (Hfiled : forall entry q,
            entry ∈ proc_entries sys ->
            record_of_entry sys cpu_usage_map pl entry = Some q ->
            exists ptr, processes_map_ pl1 !! pid q = Some ptr /\
                        processes_ pl1 !! ptr = Some q).
  { intros entry q Hin Hq.
    assert (q ∈ processes_ pl1) as Hq1.
    { rewrite Htable. apply list_elem_of_omap. eauto. }
    destruct (Hcover1 q Hq1) as [ptr Hptr]. exists ptr. split; [done|].
    destruct (Hsound1 _ _ Hptr) as (q' & Hq' & Hpid).
    assert (q' ∈ processes_ pl1) as Hq1'
      by (apply list_elem_of_lookup; eauto).
    rewrite Htable in Hq1'.
    apply list_elem_of_omap in Hq1' as (entry' & Hin' & Hrec').
    pose proof (record_of_entry_pid _ _ _ _ _ Hsound Hq) as Hp.
    pose proof (record_of_entry_pid _ _ _ _ _ Hsound Hrec') as Hp'.
    rewrite Hpid in Hp'.
    assert (entry' = entry)
      by (eapply (omap_NoDup_inj pid_of_entry); eauto).
    subst entry'. rewrite Hq in Hrec'. by injection Hrec' as ->. }
  (* a pid the first call made no record for is unknown to both indexes *)
  assert (Hunknown : forall entry upid,
            entry ∈ proc_entries sys ->
            is_directory entry = true ->
            SimpleAtoi (filename entry) = Some upid ->
            record_of_entry sys cpu_usage_map pl entry = None ->
            processes_map_ pl !! to_int32 upid = None /\
            processes_map_ pl1 !! to_int32 upid = None).
  { intros entry upid Hin Hdir Hatoi Hnone. split.
    - destruct (processes_map_ pl !! to_int32 upid) as [ptr|] eqn:Hptr;
        [|done].
      destruct (Hsound _ _ Hptr) as (p & Hp & _).
      by rewrite (record_of_entry_known _ _ _ _ _ _ _ Hdir Hatoi Hptr Hp)
        in Hnone.
    - destruct (processes_map_ pl1 !! to_int32 upid) as [ptr|] eqn:Hptr;
        [|done].
      destruct (Hsound1 _ _ Hptr) as (q' & Hq' & Hpid).
      assert (q' ∈ processes_ pl1) as Hq1'
        by (apply list_elem_of_lookup; eauto).
      rewrite Htable in Hq1'.
      apply list_elem_of_omap in Hq1' as (entry' & Hin' & Hrec').
      pose proof (record_of_entry_pid _ _ _ _ _ Hsound Hrec') as Hp'.
      rewrite Hpid in Hp'.
      assert (pid_of_entry entry = Some (to_int32 upid)) as Hp
        by (unfold pid_of_entry; by rewrite Hdir, Hatoi).
      assert (entry' = entry)
        by (eapply (omap_NoDup_inj pid_of_entry); eauto).
      subst entry'. congruence. }
  (* the second call makes the same record for every entry *)
  assert (Hsame : forall entry,
            entry ∈ proc_entries sys ->
            record_of_entry sys cpu_usage_map pl1 entry
            = record_of_entry sys cpu_usage_map pl entry).
  { intros entry Hin.
    destruct (record_of_entry sys cpu_usage_map pl entry) as [q|] eqn:Hq.
    - destruct (Hfiled entry q Hin Hq) as (ptr & Hptr & Hq1).
      pose proof (record_of_entry_pid _ _ _ _ _ Hsound Hq) as Hp.
      unfold pid_of_entry in Hp.
      destruct (is_directory entry) eqn:Hdir; [|done].
      destruct (SimpleAtoi (filename entry)) as [upid|] eqn:Hatoi; [|done].
      injection Hp as Hp. rewrite <- Hp in Hptr.
      rewrite (record_of_entry_known _ _ _ _ _ _ _ Hdir Hatoi Hptr Hq1).
      assert (q ∈ processes_ (this_ (run_Refresh sys pl).2)) as Hin1
        by (apply list_elem_of_lookup; eauto).
      unfold cpu_usage_at.
      rewrite <- (run_Refresh_cpu_usage sys pl cpu_usage_map q Hcpu Hok
                    Hin1).
      by rewrite set_cpu_usage_same.
    - destruct (pid_of_entry entry) as [k|] eqn:Hp.
      2:{ by apply record_of_entry_no_pid. }
      unfold pid_of_entry in Hp.
      destruct (is_directory entry) eqn:Hdir; [|done].
      destruct (SimpleAtoi (filename entry)) as [upid|] eqn:Hatoi; [|done].
      destruct (Hunknown entry upid Hin Hdir Hatoi Hq) as [H0 H1].
      rewrite <- Hq. unfold record_of_entry.
      by rewrite Hdir, Hatoi, H0, H1. }
  (* and meets no entry on which a turn throws *)
  assert (Hex1 : existsb (cmdline_unreadable sys pl1) (proc_entries sys)
                 = false).
  { apply existsb_false_intro. intros entry Hin.
    pose proof (existsb_false_in _ _ _ Hex Hin) as Hold.
    unfold cmdline_unreadable in *.
    destruct (is_directory entry) eqn:Hdir; [|done].
    destruct (SimpleAtoi (filename entry)) as [upid|] eqn:Hatoi; [|done].
    simpl in *.
    destruct (processes_map_ pl1 !! to_int32 upid) as [ptr1|] eqn:Hptr1;
      [done|].
    destruct (processes_map_ pl !! to_int32 upid) as [ptr|] eqn:Hptr;
      [|done].
    destruct (Hsound _ _ Hptr) as (p & Hp & Hk).
    pose proof (record_of_entry_known sys cpu_usage_map _ _ _ _ _ Hdir Hatoi
                  Hptr Hp) as Hrec.
    destruct (Hfiled _ _ Hin Hrec) as (ptr' & Hptr' & _).
    simpl in Hptr'. rewrite Hk in Hptr'. congruence. }
  pose proof (run_Refresh_completes sys pl1 Hsound1) as Hc1.
  rewrite Hcpu, Hex1 in Hc1. split; [done|].
  rewrite (run_Refresh_table sys pl1 cpu_usage_map Hcpu Hc1).
  rewrite (omap_ext_in _ _ _ Hsame). by rewrite Hpl1.
Qed.

Lemma Refresh_twice_witness :
  (run_Refresh sys_busy (this_ (run_Refresh sys_busy table_idle).2)).1
    = Returns (success tt).
Proof.
  apply (Refresh_twice sys_busy table_idle).
  - apply reachable_table_idle.
  - apply (bool_decide_unpack _). by vm_compute.
  - vm_compute. reflexivity.
Defined.

(** X16. What the record of a new process holds. When a directory of the
    listing has a pid the index does not know, its [comm] and [cmdline]
    are read and its bitness is known, and the name is not empty once
    trailing white space is removed, a call that returns success leaves in
    the table the record with that pid, the stripped name, the [cpu_usage]
    of the aggregate under that pid (zero when there is none), as
    [full_path] the command line up to its first character of code 0, as
    [command_line] the command line with every such character replaced by
    a space, and that bitness. *)
Theorem Refresh_new_record (sys : System) (pl : ProcessList)
    (cpu_usage_map : gmap Z double) (entry : directory_entry) (upid : Z)
    (name_read cmdline : string) (b : bool) :
  GetCpuUtilization sys = success cpu_usage_map ->
  (run_Refresh sys pl).1 = Returns (success tt) ->
  entry ∈ proc_entries sys ->
  is_directory entry = true ->
  SimpleAtoi (filename entry) = Some upid ->
  processes_map_ pl !! to_int32 upid = None ->
  FileToString sys (path_append (path entry) "comm") = success name_read ->
  StripTrailingAsciiWhitespace name_read <> EmptyString ->
  FileToString sys (path_append (path entry) "cmdline") = success cmdline ->
  Is64Bit sys (to_int32 upid) = success b ->
  mkProcessInfo (to_int32 upid) (StripTrailingAsciiWhitespace name_read)
    (default double_zero (cpu_usage_map !! to_int32 upid))
    (up_to_nul cmdline) (replace "000" " " cmdline) b
  ∈ processes_ (this_ (run_Refresh sys pl).2).
Proof.
  intros Hcpu Hok Hin Hdir Hatoi Hptr Hcomm Hname Hcmdline H64.
  rewrite (run_Refresh_table sys pl cpu_usage_map Hcpu Hok). simpl.
  apply list_elem_of_omap. exists entry. split; [done|].
  by apply record_of_entry_new.
Qed.

Lemma Refresh_new_record_witness :
  mkProcessInfo 1 "init" double_zero "/sbin/init" "/sbin/init splash " true
  ∈ processes_ (this_ (run_Refresh sys_idle ProcessList_new).2).
Proof.
  refine (Refresh_new_record sys_idle ProcessList_new ∅ (dir "1") 1
            ("init" +:+ newline) ("/sbin/init" +:+ nul +:+ "splash" +:+ nul)
            true _ _ _ _ _ _ _ _ _ _).
  - reflexivity.
  - vm_compute. reflexivity.
  - left.
  - reflexivity.
  - reflexivity.
  - reflexivity.
  - reflexivity.
  - vm_compute. discriminate.
  - reflexivity.
  - reflexivity.
Defined.
